(** * base/lock.cc: the recursive [Lock] and its [AutoUnlock] helper

    A shallow embedding of [src/lock.cc].  Every method of the file is a
    function from the calling thread and the shared world to an outcome:
    a normal return, a failed [DCHECK], a call outside the contract of the
    platform mutex, or a thread parked inside the blocking [lock_.Lock()]
    together with the rest of the method, to be run in the world in which
    the mutex is finally granted.

    The build configuration ([NDEBUG] defined or not) is a boolean
    parameter of every method: [NDEBUG = true] is the production build,
    [NDEBUG = false] the instrumented (debug) build. *)

From Stdlib Require Import ZArith List Bool Lia PeanoNat.
Import ListNotations.

Set Implicit Arguments.
Set Warnings "-register-all".
Local Open Scope Z_scope.

(** ** Machine integers

    The counters of lock.cc are [int32] ([int32 count], the return type of
    [GetCurrentThreadRecursionCount]); [++] and [--] are followed by the
    two's-complement wrap-around of the 32-bit register. *)

Definition INT32_MIN : Z := -2147483648.
Definition INT32_MAX : Z := 2147483647.

Definition wrap32 (z : Z) : Z := (z + 2147483648) mod 4294967296 - 2147483648.

Definition is_int32 (z : Z) : Prop := INT32_MIN <= z <= INT32_MAX.

(** ** Threads *)

Definition thread : Type := nat.

(** ** The platform mutex [LockImpl] *)

Module LockImpl.

(** Modelled from the spec: the class [LockImpl] (base/lock_impl.h), the
    type of the member [lock_], is not among the sources.  It is the
    external platform mutex with a blocking acquire, a release whose
    precondition is that the caller holds the mutex, and a non-blocking
    try-acquire.  lock.cc nests its calls on one thread (the depth-2
    branch of [Acquire] and [Try], the [Lock]/[Unlock] pair that
    [GetCurrentThreadRecursionCount] runs while the caller already holds
    the lock, the release loop of [AutoUnlock]), so the mutex is owned by
    one thread at a time and re-entrant for its owner: the state is either
    [Free] or [Held owner depth], with [depth] the number of acquisitions
    the owner has not yet released.  (The overview of the specification
    calls the primitive non-recursive; on such a primitive the second
    nested [Acquire] of a thread would never return and depth 2 would
    never be seen, so the code is read with the re-entrant mutex it is
    written for.) *)
Inductive t : Type :=
| Free
| Held (owner : thread) (depth : positive).

(** Whether an acquire by [who] succeeds at once. *)
Definition available (who : thread) (m : t) : bool :=
  match m with
  | Free => true
  | Held owner _ => Nat.eqb owner who
  end.

(** The mutex after [who] has been granted one more acquisition. *)
Definition grant (who : thread) (m : t) : t :=
  match m with
  | Free => Held who 1
  | Held owner depth => Held owner (Pos.succ depth)
  end.

(** [lock_.Try()]: non-blocking; on failure the mutex is untouched. *)
Definition Try (who : thread) (m : t) : bool * t :=
  if available who m then (true, grant who m) else (false, m).

(** [lock_.Lock()]: [None] when the caller has to wait. *)
Definition Lock (who : thread) (m : t) : option t :=
  if available who m then Some (grant who m) else None.

(** [lock_.Unlock()]: [None] when the caller does not hold the mutex,
    which the platform leaves undefined. *)
Definition Unlock (who : thread) (m : t) : option t :=
  match m with
  | Free => None
  | Held owner depth =>
      if Nat.eqb owner who then
        Some (match depth with
              | xH => Free
              | _ => Held owner (Pos.pred depth)
              end)
      else None
  end.

End LockImpl.

(** ** The [Lock] object and the shared world *)

Record Lock : Type := mkLock {
  lock_ : LockImpl.t;
  recursion_count_shadow_ : Z;
  (* the three members below exist in the instrumented build only; the
     production build carries them untouched *)
  recursion_used_ : bool;
  acquisition_count_ : Z;
  contention_count_ : Z
}.

Definition set_lock_ (m : LockImpl.t) (l : Lock) : Lock :=
  mkLock m (recursion_count_shadow_ l) (recursion_used_ l)
         (acquisition_count_ l) (contention_count_ l).

Definition set_recursion_count_shadow_ (z : Z) (l : Lock) : Lock :=
  mkLock (lock_ l) z (recursion_used_ l)
         (acquisition_count_ l) (contention_count_ l).

Definition set_recursion_used_ (b : bool) (l : Lock) : Lock :=
  mkLock (lock_ l) (recursion_count_shadow_ l) b
         (acquisition_count_ l) (contention_count_ l).

Definition set_acquisition_count_ (z : Z) (l : Lock) : Lock :=
  mkLock (lock_ l) (recursion_count_shadow_ l) (recursion_used_ l)
         z (contention_count_ l).

Definition set_contention_count_ (z : Z) (l : Lock) : Lock :=
  mkLock (lock_ l) (recursion_count_shadow_ l) (recursion_used_ l)
         (acquisition_count_ l) z.

(** Ghost history: which methods were entered and which calls reached the
    platform mutex, oldest first.  No method reads it. *)

Inductive method : Type :=
| mAcquire
| mRelease
| mTry
| mGetCurrentThreadRecursionCount
| mDestroy.

Inductive primitive : Type :=
| pTry (ok : bool)
| pLock
| pUnlock.

Inductive event : Type :=
| Called (m : method) (who : thread)
| OnMutex (p : primitive) (who : thread).

Record World : Type := mkWorld {
  self : Lock;
  log : list event
}.

Definition method_eqb (a b : method) : bool :=
  match a, b with
  | mAcquire, mAcquire
  | mRelease, mRelease
  | mTry, mTry
  | mGetCurrentThreadRecursionCount, mGetCurrentThreadRecursionCount
  | mDestroy, mDestroy => true
  | _, _ => false
  end.

Definition is_call (m : method) (e : event) : bool :=
  match e with
  | Called m' _ => method_eqb m m'
  | OnMutex _ _ => false
  end.

(** Number of entries into method [m] recorded in a history. *)
Definition calls (m : method) (h : list event) : nat :=
  length (filter (is_call m) h).

(** ** Outcomes and the monad of methods *)

Inductive result (A : Type) : Type :=
| Returns (a : A) (w : World)
| Aborts (w : World)
| Undefined (w : World)
| Parked (w : World) (resume : World -> option (result A)).

Arguments Aborts {A} w.
Arguments Undefined {A} w.

Definition M (A : Type) : Type := World -> result A.

Definition ret {A : Type} (a : A) : M A := fun w => Returns a w.

Fixpoint bind_result {A B : Type} (r : result A) (f : A -> M B) : result B :=
  match r with
  | Returns a w => f a w
  | Aborts w => Aborts w
  | Undefined w => Undefined w
  | Parked w resume =>
      Parked w (fun w' =>
                  match resume w' with
                  | Some r' => Some (bind_result r' f)
                  | None => None
                  end)
  end.

Definition bind {A B : Type} (c : M A) (f : A -> M B) : M B :=
  fun w => bind_result (c w) f.

Declare Scope lock_scope.
Delimit Scope lock_scope with lock.
Notation "x <- c1 ;; c2" := (bind c1 (fun x => c2))
  (at level 61, c1 at next level, right associativity) : lock_scope.
Notation "c1 ;; c2" := (bind c1 (fun _ => c2))
  (at level 61, right associativity) : lock_scope.
Local Open Scope lock_scope.

Definition read {A : Type} (field : Lock -> A) : M A :=
  fun w => Returns (field (self w)) w.

Definition write (update : Lock -> Lock) : M unit :=
  fun w => Returns tt (mkWorld (update (self w)) (log w)).

Definition note (e : event) : M unit :=
  fun w => Returns tt (mkWorld (self w) (log w ++ [e])).

Definition abort {A : Type} : M A := fun w => Aborts w.

(** The calls on the member [lock_]. *)

Definition lock_Try (who : thread) : M bool :=
  fun w =>
    let (ok, m) := LockImpl.Try who (lock_ (self w)) in
    Returns ok (mkWorld (set_lock_ m (self w)) (log w ++ [OnMutex (pTry ok) who])).

(** The caller of a [lock_.Lock()] that cannot be served parks; it is
    resumed in a later world, and only in one whose mutex can be granted. *)
Definition lock_Lock_granted (who : thread) (w : World) : option (result unit) :=
  match LockImpl.Lock who (lock_ (self w)) with
  | Some m => Some (Returns tt (mkWorld (set_lock_ m (self w)) (log w)))
  | None => None
  end.

Definition lock_Lock (who : thread) : M unit :=
  fun w =>
    let w1 := mkWorld (self w) (log w ++ [OnMutex pLock who]) in
    match lock_Lock_granted who w1 with
    | Some r => r
    | None => Parked w1 (lock_Lock_granted who)
    end.

Definition lock_Unlock (who : thread) : M unit :=
  fun w =>
    let w1 := mkWorld (self w) (log w ++ [OnMutex pUnlock who]) in
    match LockImpl.Unlock who (lock_ (self w)) with
    | Some m => Returns tt (mkWorld (set_lock_ m (self w)) (log w1))
    | None => Undefined w1
    end.

(** ** The methods of lock.cc *)

Section Build.

Variable NDEBUG : bool.

(** Modelled from the spec: [DCHECK] (base/logging.h) is not among the
    sources.  It is the fatal-assertion hook, present in instrumented
    builds only: there a false condition aborts; the production build
    compiles the check away. *)
Definition DCHECK (condition : bool) : M unit :=
  if NDEBUG then ret tt
  else if condition then ret tt else abort.

(** [Lock::Lock()], lines 17-25.  The production build has no debug
    members to initialise; the record carries them at the same values. *)
Definition Lock_ctor : Lock :=
  mkLock LockImpl.Free 0 false 0 0.

(** [Lock::~Lock()], lines 27-40. *)
Definition Lock_dtor (who : thread) : M unit :=
  note (Called mDestroy who) ;;
  if NDEBUG then ret tt
  else
    lock_Lock who ;;
    final_recursion_count <- read recursion_count_shadow_ ;;
    lock_Unlock who ;;
    DCHECK (0 =? final_recursion_count).

(** [Lock::Acquire()], lines 42-60. *)
Definition Acquire (who : thread) : M unit :=
  note (Called mAcquire who) ;;
  if NDEBUG then
    lock_Lock who ;;
    n <- read recursion_count_shadow_ ;;
    write (set_recursion_count_shadow_ (wrap32 (n + 1)))
  else
    ok <- lock_Try who ;;
    (if negb ok then
       (* We have contention. *)
       lock_Lock who ;;
       c <- read contention_count_ ;;
       write (set_contention_count_ (wrap32 (c + 1)))
     else ret tt) ;;
    n <- read recursion_count_shadow_ ;;
    write (set_recursion_count_shadow_ (wrap32 (n + 1))) ;;
    n' <- read recursion_count_shadow_ ;;
    if 1 =? n' then
      a <- read acquisition_count_ ;;
      write (set_acquisition_count_ (wrap32 (a + 1)))
    else
      used <- read recursion_used_ ;;
      if (2 =? n') && negb used then
        (* Usage Note: Set a break point to debug. *)
        write (set_recursion_used_ true)
      else ret tt.

(** [Lock::Release()], lines 62-68. *)
Definition Release (who : thread) : M unit :=
  note (Called mRelease who) ;;
  n <- read recursion_count_shadow_ ;;
  write (set_recursion_count_shadow_ (wrap32 (n - 1))) ;;
  (if NDEBUG then ret tt
   else
     n' <- read recursion_count_shadow_ ;;
     DCHECK (0 <=? n')) ;;
  lock_Unlock who.

(** [Lock::Try()], lines 70-84. *)
Definition Try (who : thread) : M bool :=
  note (Called mTry who) ;;
  ok <- lock_Try who ;;
  if ok then
    n <- read recursion_count_shadow_ ;;
    write (set_recursion_count_shadow_ (wrap32 (n + 1))) ;;
    (if NDEBUG then ret tt
     else
       n' <- read recursion_count_shadow_ ;;
       if 1 =? n' then
         a <- read acquisition_count_ ;;
         write (set_acquisition_count_ (wrap32 (a + 1)))
       else
         used <- read recursion_used_ ;;
         if (2 =? n') && negb used then
           write (set_recursion_used_ true)
         else ret tt) ;;
    ret true
  else
    ret false.

(** [Lock::GetCurrentThreadRecursionCount()], lines 96-113. *)
Definition GetCurrentThreadRecursionCount (who : thread) : M Z :=
  note (Called mGetCurrentThreadRecursionCount who) ;;
  (if NDEBUG then ret tt
   else
     lock_Lock who ;;
     temp <- read recursion_count_shadow_ ;;
     lock_Unlock who ;;
     DCHECK (temp >=? 1)) ;;
  read recursion_count_shadow_.

(** ** [AutoUnlock], lines 116-131

    The member [lock_] of the helper points to the [Lock] of the world;
    [release_count_] is the helper's own. *)

Record AutoUnlock : Type := mkAutoUnlock {
  release_count_ : Z
}.

(** [while (count-- > 0) { release_count_++; lock_->Release(); }]
    Every round takes one unit of [count] and one of fuel, so the fuel
    [Z.to_nat count] of the constructor runs out exactly when the test
    fails ([loop_fuel_exact]). *)
Fixpoint release_loop (fuel : nat) (who : thread) (count : Z)
         (au : AutoUnlock) {struct fuel} : M AutoUnlock :=
  if count >? 0 then
    match fuel with
    | S fuel' =>
        let au' := mkAutoUnlock (wrap32 (release_count_ au + 1)) in
        Release who ;;
        release_loop fuel' who (wrap32 (count - 1)) au'
    | O => ret au
    end
  else ret au.

(** [AutoUnlock::AutoUnlock(Lock& lock)], lines 116-125. *)
Definition AutoUnlock_ctor (who : thread) : M AutoUnlock :=
  count <- GetCurrentThreadRecursionCount who ;;
  DCHECK (count >? 0) ;;
  release_loop (Z.to_nat count) who count (mkAutoUnlock 0).

(** [while (release_count_-- > 0) lock_->Acquire();]
    The post-decrement also runs on the failing test, which leaves
    [release_count_] at [-1]. *)
Fixpoint acquire_loop (fuel : nat) (who : thread)
         (au : AutoUnlock) {struct fuel} : M AutoUnlock :=
  let au' := mkAutoUnlock (wrap32 (release_count_ au - 1)) in
  if release_count_ au >? 0 then
    match fuel with
    | S fuel' =>
        Acquire who ;;
        acquire_loop fuel' who au'
    | O => ret au'
    end
  else ret au'.

(** [AutoUnlock::~AutoUnlock()], lines 127-131. *)
Definition AutoUnlock_dtor (who : thread) (au : AutoUnlock) : M AutoUnlock :=
  DCHECK (release_count_ au >=? 0) ;;
  acquire_loop (Z.to_nat (release_count_ au)) who au.

End Build.

(** ** Threads sharing one lock

    A thread runs a method until it returns or parks; a parked thread is
    woken when the mutex can be granted to it and then runs the rest of
    its method.  A failed [DCHECK] or a call outside the mutex contract
    ends the run. *)

Inductive op : Type :=
| OpAcquire
| OpRelease
| OpTry
| OpGetCurrentThreadRecursionCount.

Definition invoke (NDEBUG : bool) (o : op) (who : thread) : M unit :=
  match o with
  | OpAcquire => Acquire NDEBUG who
  | OpRelease => Release NDEBUG who
  | OpTry => Try NDEBUG who ;; ret tt
  | OpGetCurrentThreadRecursionCount =>
      GetCurrentThreadRecursionCount NDEBUG who ;; ret tt
  end.

Definition continuation : Type := World -> option (result unit).

Record System : Type := mkSystem {
  shared : World;
  waiting : list (thread * continuation)
}.

Inductive action : Type :=
| Invoke (who : thread) (o : op)
| Wake (who : thread).

Fixpoint parked_at (who : thread) (ws : list (thread * continuation))
  : option continuation :=
  match ws with
  | [] => None
  | (t, k) :: ws' => if Nat.eqb t who then Some k else parked_at who ws'
  end.

Fixpoint unpark (who : thread) (ws : list (thread * continuation))
  : list (thread * continuation) :=
  match ws with
  | [] => []
  | (t, k) :: ws' =>
      if Nat.eqb t who then ws' else (t, k) :: unpark who ws'
  end.

Definition settle (who : thread) (r : result unit)
           (ws : list (thread * continuation)) : option System :=
  match r with
  | Returns _ w => Some (mkSystem w ws)
  | Parked w k => Some (mkSystem w ((who, k) :: ws))
  | Aborts _ => None
  | Undefined _ => None
  end.

Definition step (NDEBUG : bool) (a : action) (s : System) : option System :=
  match a with
  | Invoke who o =>
      match parked_at who (waiting s) with
      | Some _ => None
      | None => settle who (invoke NDEBUG o who (shared s)) (waiting s)
      end
  | Wake who =>
      match parked_at who (waiting s) with
      | Some k =>
          match k (shared s) with
          | Some r => settle who r (unpark who (waiting s))
          | None => None
          end
      | None => None
      end
  end.

Fixpoint exec (NDEBUG : bool) (acts : list action) (s : System) : option System :=
  match acts with
  | [] => Some s
  | a :: acts' =>
      match step NDEBUG a s with
      | Some s' => exec NDEBUG acts' s'
      | None => None
      end
  end.

(** The system right after [Lock::Lock()]. *)
Definition boot : System :=
  mkSystem (mkWorld Lock_ctor []) [].

(** * Vocabulary of the properties *)

(** [z] is an [int32] that [++] does not overflow. *)
Definition can_increment (z : Z) : Prop := INT32_MIN <= z < INT32_MAX.

(** [z] is an [int32] that [--] does not overflow. *)
Definition can_decrement (z : Z) : Prop := INT32_MIN < z <= INT32_MAX.

(** The depth and the session counter can take one more increment. *)
Definition headroom (l : Lock) : Prop :=
  can_increment (recursion_count_shadow_ l) /\
  can_increment (acquisition_count_ l).

(** The lock object after an instrumented entry ([Acquire] or a successful
    [Try]) that was granted the mutex [m]: the depth is bumped, a session
    is counted on depth 1, the latch is set on depth 2.  [contended] tells
    whether the contention counter was bumped before. *)
Definition entered (contended : bool) (m : LockImpl.t) (l : Lock) : Lock :=
  let n' := wrap32 (recursion_count_shadow_ l + 1) in
  mkLock m n'
         (if 1 =? n' then recursion_used_ l
          else if (2 =? n') && negb (recursion_used_ l) then true
               else recursion_used_ l)
         (if 1 =? n' then wrap32 (acquisition_count_ l + 1)
          else acquisition_count_ l)
         (if contended then wrap32 (contention_count_ l + 1)
          else contention_count_ l).

(** The rest of a contended instrumented [Acquire], run when woken. *)
Definition Acquire_resume (who : thread) (w : World) : option (result unit) :=
  if LockImpl.available who (lock_ (self w)) then
    Some (Returns tt
            (mkWorld (entered true (LockImpl.grant who (lock_ (self w))) (self w))
                     (log w)))
  else None.

(** The lock object after a production entry granted the mutex [m]. *)
Definition entered_production (m : LockImpl.t) (l : Lock) : Lock :=
  mkLock m (wrap32 (recursion_count_shadow_ l + 1))
         (recursion_used_ l) (acquisition_count_ l) (contention_count_ l).

(** The rest of a production [Acquire] that had to wait. *)
Definition Acquire_resume_production (who : thread) (w : World)
  : option (result unit) :=
  if LockImpl.available who (lock_ (self w)) then
    Some (Returns tt
            (mkWorld (entered_production
                        (LockImpl.grant who (lock_ (self w))) (self w))
                     (log w)))
  else None.

(** The bookkeeping of an entry, in the words of the contract: the depth
    goes up by one, a session is counted exactly when the new depth is 1,
    the latch changes exactly when the new depth is 2 and it was clear, and
    it changes to [true]. *)
Definition entry_bookkeeping (before after : Lock) : Prop :=
  recursion_count_shadow_ after = recursion_count_shadow_ before + 1 /\
  (acquisition_count_ after = acquisition_count_ before + 1 <->
   recursion_count_shadow_ after = 1) /\
  (acquisition_count_ after = acquisition_count_ before \/
   acquisition_count_ after = acquisition_count_ before + 1) /\
  (recursion_used_ after <> recursion_used_ before <->
   recursion_count_shadow_ after = 2 /\ recursion_used_ before = false) /\
  (recursion_used_ after <> recursion_used_ before ->
   recursion_used_ after = true).

(** The production entry: the depth goes up by one, nothing else moves. *)
Definition only_depth_bumped (before after : Lock) : Prop :=
  (can_increment (recursion_count_shadow_ before) ->
   recursion_count_shadow_ after = recursion_count_shadow_ before + 1) /\
  recursion_used_ after = recursion_used_ before /\
  acquisition_count_ after = acquisition_count_ before /\
  contention_count_ after = contention_count_ before.

(** The mutex of a lock that thread [who] holds [d] times. *)
Definition mutex_at (who : thread) (d : Z) : LockImpl.t :=
  match d with
  | Z.pos p => LockImpl.Held who p
  | _ => LockImpl.Free
  end.

(** Thread [who] holds the lock at depth [d]; depth 0 is the lock that no
    thread holds. *)
Definition held_at (who : thread) (d : Z) (l : Lock) : Prop :=
  recursion_count_shadow_ l = d /\ lock_ l = mutex_at who d.

(** [k] calls of one method in a row. *)
Fixpoint times (k : nat) (c : M unit) : M unit :=
  match k with
  | O => ret tt
  | S k' => c ;; times k' c
  end.

(** The history entries of one [GetCurrentThreadRecursionCount]: the
    instrumented build wraps its read in a [Lock]/[Unlock] pair. *)
Definition GetCurrentThreadRecursionCount_trace (NDEBUG : bool) (who : thread)
  : list event :=
  if NDEBUG then [Called mGetCurrentThreadRecursionCount who]
  else [Called mGetCurrentThreadRecursionCount who;
        OnMutex pLock who; OnMutex pUnlock who].

(** What a thread parked in the instrumented
    [GetCurrentThreadRecursionCount] does when woken. *)
Definition GetCurrentThreadRecursionCount_resume (who : thread) (w : World)
  : option (result Z) :=
  if LockImpl.available who (lock_ (self w)) then
    let w' := mkWorld (self w) (log w ++ [OnMutex pUnlock who]) in
    Some (if recursion_count_shadow_ (self w) >=? 1
          then Returns (recursion_count_shadow_ (self w)) w'
          else Aborts w')
  else None.


(** The three shapes a completed step of the instrumented build gives the
    lock object: only the mutex moves (a failed [Try], a recursion-count
    query, a thread that parks); an entry ([Acquire], a successful [Try]);
    a [Release] whose check passed. *)
Inductive lock_step (l : Lock) : Lock -> Prop :=
| step_mutex (m : LockImpl.t) :
    lock_step l (set_lock_ m l)
| step_entry (contended : bool) (m : LockImpl.t) :
    lock_step l (entered contended m l)
| step_release (m : LockImpl.t) :
    0 <= wrap32 (recursion_count_shadow_ l - 1) ->
    lock_step l (set_lock_ m (set_recursion_count_shadow_
                                (wrap32 (recursion_count_shadow_ l - 1)) l)).

(** A parked continuation completes its method in one step, or fails. *)
Definition resumes_in_one_step {A : Type} (k : World -> option (result A))
  : Prop :=
  forall w2,
    match k w2 with
    | Some (Returns _ w') => lock_step (self w2) (self w')
    | Some (Parked _ _) => False
    | _ => True
    end.

(** An outcome of a method called in world [w] is a step of the lock. *)
Definition outcome_steps {A : Type} (w : World) (r : result A) : Prop :=
  match r with
  | Returns _ w' => lock_step (self w) (self w')
  | Parked w1 k => self w1 = self w /\ resumes_in_one_step k
  | _ => True
  end.

(** While the latch is clear the depth is 0 or 1. *)
Definition latch_tracks_depth (l : Lock) : Prop :=
  recursion_used_ l = false ->
  recursion_count_shadow_ l = 0 \/ recursion_count_shadow_ l = 1.

(** Every counter holds a value of its type. *)
Definition int32_counters (l : Lock) : Prop :=
  is_int32 (recursion_count_shadow_ l) /\
  is_int32 (acquisition_count_ l) /\
  is_int32 (contention_count_ l).

(** The invariant of the systems reached from [boot]. *)
Definition sound (s : System) : Prop :=
  Forall (fun tk => resumes_in_one_step (snd tk)) (waiting s) /\
  latch_tracks_depth (self (shared s)) /\
  int32_counters (self (shared s)).

(** * Proof automation *)

(** Unfolding the methods and running the monad. *)
Ltac unfold_method :=
  cbv beta delta
      [Acquire Release Try GetCurrentThreadRecursionCount Lock_dtor DCHECK
       invoke bind ret read write note abort
       lock_Try lock_Lock lock_Lock_granted lock_Unlock
       LockImpl.Try LockImpl.Lock
       set_lock_ set_recursion_count_shadow_ set_recursion_used_
       set_acquisition_count_ set_contention_count_].

Ltac reduce_method :=
  cbn beta iota zeta delta
      [bind_result self log lock_ recursion_count_shadow_ recursion_used_
       acquisition_count_ contention_count_ negb andb app].

Ltac run_method := unfold_method; reduce_method.

Ltac conj := match goal with |- _ /\ _ => split end.

Ltac lock_fields :=
  cbn beta iota zeta delta
      [entered set_lock_ set_recursion_count_shadow_
       lock_ recursion_count_shadow_ recursion_used_
       acquisition_count_ contention_count_ self log] in *.


(** * Vocabulary of the further properties *)

(** The exit: the depth goes down by one, no debug member moves. *)
Definition only_depth_dropped (before after : Lock) : Prop :=
  (can_decrement (recursion_count_shadow_ before) ->
   recursion_count_shadow_ after = recursion_count_shadow_ before - 1) /\
  recursion_used_ after = recursion_used_ before /\
  acquisition_count_ after = acquisition_count_ before /\
  contention_count_ after = contention_count_ before.

(** How many acquisitions of the mutex are outstanding. *)
Definition mutex_depth (m : LockImpl.t) : Z :=
  match m with
  | LockImpl.Free => 0
  | LockImpl.Held _ p => Z.pos p
  end.

(** The shadow count is the hold count of the mutex, as an [int32]. *)
Definition depth_agrees (l : Lock) : Prop :=
  recursion_count_shadow_ l = wrap32 (mutex_depth (lock_ l)).

(** Invariants of the lock object along the runs of a system: every
    method outcome, and every parked continuation, has to keep them. *)
Section Invariant.

Variable P : Lock -> Prop.

Definition resume_keeps (k : continuation) : Prop :=
  forall w2,
    P (self w2) ->
    match k w2 with
    | Some (Returns _ w') => P (self w')
    | Some (Parked _ _) => False
    | _ => True
    end.

Definition outcome_keeps (w : World) (r : result unit) : Prop :=
  match r with
  | Returns _ w' => P (self w')
  | Parked w1 k => self w1 = self w /\ resume_keeps k
  | _ => True
  end.

Definition kept (s : System) : Prop :=
  P (self (shared s)) /\
  Forall (fun tk => resume_keeps (snd tk)) (waiting s).

End Invariant.

(** The steps of a run that take the depth from 0 to 1. *)
Fixpoint sessions (NDEBUG : bool) (acts : list action) (s : System) : nat :=
  match acts with
  | [] => O
  | a :: acts' =>
      match step NDEBUG a s with
      | Some s' =>
          let opened :=
            (recursion_count_shadow_ (self (shared s)) =? 0)
            && (recursion_count_shadow_ (self (shared s')) =? 1) in
          Nat.add (if opened then 1%nat else 0%nat) (sessions NDEBUG acts' s')
      | None => O
      end
  end.

(** * Properties *)

Unset Implicit Arguments.

(** ** Arithmetic of the 32-bit counters *)

Lemma wrap32_is_int32 (z : Z) : is_int32 (wrap32 z).
Proof.
  unfold is_int32, wrap32, INT32_MIN, INT32_MAX.
  pose proof (Z.mod_pos_bound (z + 2147483648) 4294967296 eq_refl).
  lia.
Qed.

Lemma wrap32_id (z : Z) : is_int32 z -> wrap32 z = z.
Proof.
  unfold is_int32, wrap32, INT32_MIN, INT32_MAX. intros H.
  rewrite Z.mod_small by lia. lia.
Qed.

Lemma wrap32_succ (z : Z) : can_increment z -> wrap32 (z + 1) = z + 1.
Proof.
  unfold can_increment. intros H. apply wrap32_id.
  unfold is_int32, INT32_MIN, INT32_MAX in *. lia.
Qed.

Lemma wrap32_pred (z : Z) : can_decrement z -> wrap32 (z - 1) = z - 1.
Proof.
  unfold can_decrement. intros H. apply wrap32_id.
  unfold is_int32, INT32_MIN, INT32_MAX in *. lia.
Qed.

(** ** What [Acquire] computes *)

Lemma Acquire_debug_free (who : thread) (w : World) :
  LockImpl.available who (lock_ (self w)) = true ->
  Acquire false who w =
  Returns tt
    (mkWorld (entered false (LockImpl.grant who (lock_ (self w))) (self w))
             (log w ++ [Called mAcquire who; OnMutex (pTry true) who])).
Proof.
  destruct w as [[m n u a c] h]. cbn [self lock_ log]. intros Hav.
  run_method. rewrite Hav. reduce_method. unfold entered.
  cbn [recursion_count_shadow_ recursion_used_ acquisition_count_
       contention_count_].
  rewrite <- !app_assoc. cbn [app].
  destruct (1 =? wrap32 (n + 1)); [reflexivity|].
  destruct (2 =? wrap32 (n + 1)), u; reflexivity.
Qed.

Lemma Acquire_debug_busy (who : thread) (w : World) :
  LockImpl.available who (lock_ (self w)) = false ->
  exists k,
    Acquire false who w =
    Parked (mkWorld (self w)
                    (log w ++ [Called mAcquire who; OnMutex (pTry false) who;
                               OnMutex pLock who])) k
    /\ forall w2, k w2 = Acquire_resume who w2.
Proof.
  destruct w as [[m n u a c] h]. cbn [self lock_ log]. intros Hav.
  run_method. rewrite Hav. reduce_method. rewrite Hav. reduce_method.
  rewrite <- !app_assoc. cbn [app].
  eexists. split; [reflexivity|].
  intros [[m2 n2 u2 a2 c2] h2]. unfold Acquire_resume, entered.
  reduce_method.
  destruct (LockImpl.available who m2); reduce_method; [|reflexivity].
  destruct (1 =? wrap32 (n2 + 1)); reduce_method; [reflexivity|].
  destruct (2 =? wrap32 (n2 + 1)), u2; reflexivity.
Qed.

Lemma Acquire_production_free (who : thread) (w : World) :
  LockImpl.available who (lock_ (self w)) = true ->
  Acquire true who w =
  Returns tt
    (mkWorld (entered_production (LockImpl.grant who (lock_ (self w))) (self w))
             (log w ++ [Called mAcquire who; OnMutex pLock who])).
Proof.
  destruct w as [[m n u a c] h]. cbn [self lock_ log]. intros Hav.
  run_method. rewrite Hav. reduce_method.
  rewrite <- !app_assoc. reflexivity.
Qed.

Lemma Acquire_production_busy (who : thread) (w : World) :
  LockImpl.available who (lock_ (self w)) = false ->
  exists k,
    Acquire true who w =
    Parked (mkWorld (self w)
                    (log w ++ [Called mAcquire who; OnMutex pLock who])) k
    /\ forall w2, k w2 = Acquire_resume_production who w2.
Proof.
  destruct w as [[m n u a c] h]. cbn [self lock_ log]. intros Hav.
  run_method. rewrite Hav. reduce_method.
  rewrite <- !app_assoc. cbn [app].
  eexists. split; [reflexivity|].
  intros [[m2 n2 u2 a2 c2] h2]. unfold Acquire_resume_production, entered_production.
  reduce_method.
  destruct (LockImpl.available who m2); reflexivity.
Qed.

(** ** C1: the contract of [Acquire] *)

Lemma entered_bookkeeping (contended : bool) (m : LockImpl.t) (l : Lock) :
  headroom l -> entry_bookkeeping l (entered contended m l).
Proof.
  intros (Hn & Ha). unfold entry_bookkeeping, entered.
  cbn [recursion_count_shadow_ recursion_used_ acquisition_count_].
  rewrite (wrap32_succ _ Hn), (wrap32_succ _ Ha).
  destruct l as [m0 n u a c]; cbn [recursion_count_shadow_ recursion_used_
    acquisition_count_] in *.
  destruct (Z.eqb_spec 1 (n + 1)) as [E1|E1].
  - repeat split; intros; try lia; try tauto.
  - destruct (Z.eqb_spec 2 (n + 1)) as [E2|E2]; destruct u; cbn [andb negb];
      repeat split; intros; try lia; try tauto; try congruence;
      try (exfalso; intuition congruence).
Qed.

Lemma entered_contention (m : LockImpl.t) (l : Lock) :
  can_increment (contention_count_ l) ->
  contention_count_ (entered true m l) = contention_count_ l + 1.
Proof.
  intros Hc. unfold entered. cbn [contention_count_].
  apply wrap32_succ, Hc.
Qed.

(** C1. Instrumented build: [Acquire] first tries the mutex without
    blocking; when the try succeeds it returns with the contention counter
    untouched; when it fails the thread calls the blocking acquire and
    parks, and once the mutex is granted the contention counter goes up by
    exactly one.  Either way the entry bookkeeping then runs on the lock as
    it is when the mutex is held.  Production build: [Acquire] calls the
    blocking acquire and bumps the depth, changing nothing else.  The
    increments are exact for counters below [INT32_MAX]. *)
Theorem Acquire_contract (who : thread) (w : World) :
  match Acquire false who w with
  | Returns _ w' =>
      LockImpl.Try who (lock_ (self w)) = (true, lock_ (self w')) /\
      log w' = log w ++ [Called mAcquire who; OnMutex (pTry true) who] /\
      contention_count_ (self w') = contention_count_ (self w) /\
      (headroom (self w) -> entry_bookkeeping (self w) (self w'))
  | Parked w1 k =>
      LockImpl.Try who (lock_ (self w)) = (false, lock_ (self w)) /\
      self w1 = self w /\
      log w1 = log w ++ [Called mAcquire who; OnMutex (pTry false) who;
                         OnMutex pLock who] /\
      forall w2,
        match k w2 with
        | Some (Returns _ w') =>
            LockImpl.Lock who (lock_ (self w2)) = Some (lock_ (self w')) /\
            log w' = log w2 /\
            (can_increment (contention_count_ (self w2)) ->
             contention_count_ (self w') = contention_count_ (self w2) + 1) /\
            (headroom (self w2) -> entry_bookkeeping (self w2) (self w'))
        | Some _ => False
        | None => LockImpl.Lock who (lock_ (self w2)) = None
        end
  | _ => False
  end
  /\
  match Acquire true who w with
  | Returns _ w' =>
      LockImpl.Lock who (lock_ (self w)) = Some (lock_ (self w')) /\
      log w' = log w ++ [Called mAcquire who; OnMutex pLock who] /\
      only_depth_bumped (self w) (self w')
  | Parked w1 k =>
      LockImpl.Lock who (lock_ (self w)) = None /\
      self w1 = self w /\
      log w1 = log w ++ [Called mAcquire who; OnMutex pLock who] /\
      forall w2,
        match k w2 with
        | Some (Returns _ w') =>
            LockImpl.Lock who (lock_ (self w2)) = Some (lock_ (self w')) /\
            log w' = log w2 /\
            only_depth_bumped (self w2) (self w')
        | Some _ => False
        | None => LockImpl.Lock who (lock_ (self w2)) = None
        end
  | _ => False
  end.
Proof.
  split.
  - destruct (LockImpl.available who (lock_ (self w))) eqn:Hav.
    + rewrite (Acquire_debug_free _ _ Hav). cbn [self log].
      unfold LockImpl.Try. rewrite Hav.
      repeat conj; try reflexivity.
      intros H. apply entered_bookkeeping, H.
    + destruct (Acquire_debug_busy _ _ Hav) as (k & -> & Hk).
      cbn [self log]. unfold LockImpl.Try. rewrite Hav.
      repeat conj; try reflexivity.
      intros w2. rewrite Hk. unfold Acquire_resume, LockImpl.Lock.
      destruct (LockImpl.available who (lock_ (self w2))); [|reflexivity].
      cbn [self log]. repeat conj; try reflexivity.
      * intros H. apply entered_contention; assumption.
      * intros H. apply entered_bookkeeping; assumption.
  - destruct (LockImpl.available who (lock_ (self w))) eqn:Hav.
    + rewrite (Acquire_production_free _ _ Hav). cbn [self log].
      unfold LockImpl.Lock. rewrite Hav.
      unfold only_depth_bumped. repeat conj; try reflexivity.
      intros H. apply wrap32_succ, H.
    + destruct (Acquire_production_busy _ _ Hav) as (k & -> & Hk).
      cbn [self log]. unfold LockImpl.Lock at 1. rewrite Hav.
      repeat conj; try reflexivity.
      intros w2. rewrite Hk. unfold Acquire_resume_production, LockImpl.Lock.
      destruct (LockImpl.available who (lock_ (self w2))); [|reflexivity].
      cbn [self log]. unfold only_depth_bumped. repeat conj; try reflexivity.
      intros H. apply wrap32_succ, H.
Qed.

Lemma Acquire_contract_witness :
  headroom Lock_ctor /\
  entry_bookkeeping Lock_ctor (mkLock (LockImpl.Held 0%nat 1) 1 false 1 0) /\
  exists w1 k w',
    Acquire false 0%nat (mkWorld (mkLock (LockImpl.Held 1%nat 1) 1 false 1 0) [])
      = Parked w1 k /\
    k (mkWorld Lock_ctor []) = Some (Returns tt w') /\
    contention_count_ (self w') = 1 /\
    recursion_count_shadow_ (self w') = 1.
Proof.
  assert (H : headroom Lock_ctor).
  { unfold headroom, can_increment, INT32_MIN, INT32_MAX. cbn. lia. }
  split; [exact H|]. split.
  - pose proof (Acquire_contract 0%nat (mkWorld Lock_ctor [])) as [Hdebug _].
    rewrite Acquire_debug_free in Hdebug by reflexivity.
    destruct Hdebug as (_ & _ & _ & Hb). exact (Hb H).
  - pose proof (Acquire_contract 0%nat
                  (mkWorld (mkLock (LockImpl.Held 1%nat 1) 1 false 1 0) []))
      as [Hdebug _].
    destruct (@Acquire_debug_busy 0%nat
                (mkWorld (mkLock (LockImpl.Held 1%nat 1) 1 false 1 0) [])
                eq_refl) as (k & E & _).
    rewrite E in Hdebug |- *. clear E.
    destruct Hdebug as (_ & _ & _ & Hk).
    specialize (Hk (mkWorld Lock_ctor [])).
    destruct (k (mkWorld Lock_ctor [])) as [[[] w'|?|?|? ?]|] eqn:Ek;
      try contradiction; try discriminate.
    destruct Hk as (_ & _ & Hc & Hb).
    assert (Hroom : can_increment (contention_count_ Lock_ctor)).
    { unfold can_increment, INT32_MIN, INT32_MAX. cbn. lia. }
    specialize (Hc Hroom). destruct (Hb H) as (Hn & _).
    eexists _, k, w'. repeat conj; auto.
Defined.

(** ** The re-entrant mutex under one owner *)

Lemma available_mutex_at (who : thread) (d : Z) :
  LockImpl.available who (mutex_at who d) = true.
Proof.
  destruct d; cbn [mutex_at LockImpl.available]; auto using Nat.eqb_refl.
Qed.

Lemma grant_mutex_at (who : thread) (d : Z) :
  0 <= d -> LockImpl.grant who (mutex_at who d) = mutex_at who (d + 1).
Proof.
  intros Hd. destruct d as [|p|p]; [reflexivity| |lia].
  cbn [mutex_at LockImpl.grant].
  replace (Z.pos p + 1) with (Z.pos (Pos.succ p)) by lia. reflexivity.
Qed.

Lemma Unlock_mutex_at (who : thread) (d : Z) :
  1 <= d -> LockImpl.Unlock who (mutex_at who d) = Some (mutex_at who (d - 1)).
Proof.
  intros Hd. destruct d as [|p|p]; [lia| |lia].
  cbn [mutex_at LockImpl.Unlock]. rewrite Nat.eqb_refl.
  destruct (Pos.eq_dec p 1) as [->|Hp]; [reflexivity|].
  replace (Z.pos p - 1) with (Z.pos (Pos.pred p)) by lia.
  destruct p; try reflexivity. congruence.
Qed.

Lemma Unlock_grant (who : thread) (m : LockImpl.t) :
  LockImpl.available who m = true ->
  LockImpl.Unlock who (LockImpl.grant who m) = Some m.
Proof.
  destruct m as [|o d]; cbn [LockImpl.available LockImpl.grant LockImpl.Unlock].
  - rewrite Nat.eqb_refl. reflexivity.
  - intros ->. rewrite Pos.pred_succ. destruct d; reflexivity.
Qed.

(** ** What [Release] and [Try] compute *)

Lemma Release_eq (NDEBUG : bool) (who : thread) (w : World) :
  Release NDEBUG who w =
  let l1 := set_recursion_count_shadow_
              (wrap32 (recursion_count_shadow_ (self w) - 1)) (self w) in
  if negb NDEBUG && negb (0 <=? recursion_count_shadow_ l1) then
    Aborts (mkWorld l1 (log w ++ [Called mRelease who]))
  else
    match LockImpl.Unlock who (lock_ (self w)) with
    | Some m =>
        Returns tt (mkWorld (set_lock_ m l1)
                            (log w ++ [Called mRelease who; OnMutex pUnlock who]))
    | None =>
        Undefined (mkWorld l1
                           (log w ++ [Called mRelease who; OnMutex pUnlock who]))
    end.
Proof.
  destruct w as [[m n u a c] h]. run_method.
  destruct NDEBUG; reduce_method.
  - rewrite <- !app_assoc. cbn [app].
    destruct (LockImpl.Unlock who m); reflexivity.
  - destruct (0 <=? wrap32 (n - 1)); reduce_method; [|reflexivity].
    rewrite <- !app_assoc. cbn [app].
    destruct (LockImpl.Unlock who m); reflexivity.
Qed.

Lemma Try_eq (NDEBUG : bool) (who : thread) (w : World) :
  Try NDEBUG who w =
  if LockImpl.available who (lock_ (self w)) then
    Returns true
      (mkWorld (let m := LockImpl.grant who (lock_ (self w)) in
                if NDEBUG then entered_production m (self w)
                else entered false m (self w))
               (log w ++ [Called mTry who; OnMutex (pTry true) who]))
  else
    Returns false
      (mkWorld (self w) (log w ++ [Called mTry who; OnMutex (pTry false) who])).
Proof.
  destruct w as [[m n u a c] h]. run_method.
  destruct (LockImpl.available who m); reduce_method.
  - rewrite <- !app_assoc. cbn [app].
    unfold entered, entered_production. reduce_method.
    destruct NDEBUG; reduce_method; [reflexivity|].
    destruct (1 =? wrap32 (n + 1)); reduce_method; [reflexivity|].
    destruct (2 =? wrap32 (n + 1)), u; reflexivity.
  - rewrite <- !app_assoc. reflexivity.
Qed.

(** ** One thread nesting its calls *)

Lemma Acquire_held (NDEBUG : bool) (who : thread) (d : Z) (w : World) :
  held_at who d (self w) -> 0 <= d < INT32_MAX ->
  exists w',
    Acquire NDEBUG who w = Returns tt w' /\
    held_at who (d + 1) (self w') /\
    log w' = log w ++ [Called mAcquire who;
                       OnMutex (if NDEBUG then pLock else pTry true) who].
Proof.
  intros [Hn Hm] Hd.
  assert (Hav : LockImpl.available who (lock_ (self w)) = true)
    by (rewrite Hm; apply available_mutex_at).
  assert (Hw : wrap32 (recursion_count_shadow_ (self w) + 1) = d + 1).
  { rewrite Hn. apply wrap32_succ. unfold can_increment, INT32_MIN. lia. }
  destruct NDEBUG.
  - rewrite (Acquire_production_free _ _ Hav). eexists. split; [reflexivity|].
    split; [|reflexivity]. unfold held_at, entered_production.
    cbn [self lock_ recursion_count_shadow_].
    rewrite Hw, Hm, grant_mutex_at by lia. auto.
  - rewrite (Acquire_debug_free _ _ Hav). eexists. split; [reflexivity|].
    split; [|reflexivity]. unfold held_at, entered.
    cbn [self lock_ recursion_count_shadow_].
    rewrite Hw, Hm, grant_mutex_at by lia. auto.
Qed.

Lemma Release_held (NDEBUG : bool) (who : thread) (d : Z) (w : World) :
  held_at who d (self w) -> 1 <= d <= INT32_MAX ->
  exists w',
    Release NDEBUG who w = Returns tt w' /\
    held_at who (d - 1) (self w') /\
    log w' = log w ++ [Called mRelease who; OnMutex pUnlock who] /\
    recursion_used_ (self w') = recursion_used_ (self w) /\
    acquisition_count_ (self w') = acquisition_count_ (self w) /\
    contention_count_ (self w') = contention_count_ (self w).
Proof.
  intros [Hn Hm] Hd. rewrite Release_eq. cbv zeta.
  assert (Hw : wrap32 (recursion_count_shadow_ (self w) - 1) = d - 1).
  { rewrite Hn. apply wrap32_pred. unfold can_decrement, INT32_MIN. lia. }
  unfold set_recursion_count_shadow_ at 1. cbn [recursion_count_shadow_].
  rewrite Hw, Hm, Unlock_mutex_at by lia.
  replace (0 <=? d - 1) with true by (symmetry; apply Z.leb_le; lia).
  rewrite andb_false_r.
  eexists. split; [reflexivity|].
  unfold held_at. cbn. auto 10.
Qed.

Lemma calls_app (m : method) (h1 h2 : list event) :
  calls m (h1 ++ h2) = (calls m h1 + calls m h2)%nat.
Proof. unfold calls. rewrite filter_app, length_app. reflexivity. Qed.

Lemma times_Acquire (NDEBUG : bool) (who : thread) (k : nat) :
  forall (d : Z) (w : World),
    held_at who d (self w) -> 0 <= d -> d + Z.of_nat k <= INT32_MAX ->
    exists w',
      times k (Acquire NDEBUG who) w = Returns tt w' /\
      held_at who (d + Z.of_nat k) (self w') /\
      calls mAcquire (log w') = (calls mAcquire (log w) + k)%nat /\
      calls mRelease (log w') = calls mRelease (log w).
Proof.
  induction k as [|k IH]; intros d w Hheld Hd Hk.
  - exists w. cbn [times]. unfold ret.
    rewrite Z.add_0_r, Nat.add_0_r. auto.
  - destruct (@Acquire_held NDEBUG who d w Hheld) as (w1 & E1 & H1 & L1); [lia|].
    destruct (IH (d + 1) w1 H1) as (w' & E' & H' & CA & CR); [lia|lia|].
    exists w'. cbn [times]. unfold bind at 1. rewrite E1. cbn [bind_result].
    split; [exact E'|].
    replace (d + Z.of_nat (S k)) with (d + 1 + Z.of_nat k) by lia.
    split; [exact H'|].
    rewrite CA, CR, L1, !calls_app. cbn. lia.
Qed.

Lemma times_Release (NDEBUG : bool) (who : thread) (k : nat) :
  forall (d : Z) (w : World),
    held_at who d (self w) -> Z.of_nat k <= d <= INT32_MAX ->
    exists w',
      times k (Release NDEBUG who) w = Returns tt w' /\
      held_at who (d - Z.of_nat k) (self w') /\
      calls mRelease (log w') = (calls mRelease (log w) + k)%nat /\
      calls mAcquire (log w') = calls mAcquire (log w).
Proof.
  induction k as [|k IH]; intros d w Hheld Hd.
  - exists w. cbn [times]. unfold ret.
    rewrite Z.sub_0_r, Nat.add_0_r. auto.
  - destruct (@Release_held NDEBUG who d w Hheld) as (w1 & E1 & H1 & L1 & _); [lia|].
    destruct (IH (d - 1) w1 H1) as (w' & E' & H' & CR & CA); [lia|].
    exists w'. cbn [times]. unfold bind at 1. rewrite E1. cbn [bind_result].
    split; [exact E'|].
    replace (d - Z.of_nat (S k)) with (d - 1 - Z.of_nat k) by lia.
    split; [exact H'|].
    rewrite CA, CR, L1, !calls_app. cbn. lia.
Qed.

(** ** C2: nested acquisitions and their releases *)

(** C2. For every k >= 1 (within [int32]) and in both builds: k calls of
    [Acquire] by one thread on a lock that nobody holds all return and
    leave [recursion_count_shadow_] at k; k calls of [Release] then all
    return and leave it at 0, with the mutex free. *)
Theorem nested_Acquire_then_Release
        (NDEBUG : bool) (who : thread) (k : nat) (w : World) :
  (1 <= k)%nat -> Z.of_nat k <= INT32_MAX ->
  recursion_count_shadow_ (self w) = 0 -> lock_ (self w) = LockImpl.Free ->
  exists w1 w2,
    times k (Acquire NDEBUG who) w = Returns tt w1 /\
    recursion_count_shadow_ (self w1) = Z.of_nat k /\
    lock_ (self w1) = LockImpl.Held who (Pos.of_nat k) /\
    times k (Release NDEBUG who) w1 = Returns tt w2 /\
    recursion_count_shadow_ (self w2) = 0 /\
    lock_ (self w2) = LockImpl.Free.
Proof.
  intros Hk1 Hk Hn Hm.
  assert (H0 : held_at who 0 (self w)) by (split; assumption).
  destruct (@times_Acquire NDEBUG who k 0 w H0) as (w1 & E1 & [N1 M1] & _);
    [lia|lia|].
  rewrite Z.add_0_l in N1, M1.
  destruct (@times_Release NDEBUG who k (Z.of_nat k) w1) as (w2 & E2 & [N2 M2] & _);
    [split; assumption|lia|].
  rewrite Z.sub_diag in N2, M2.
  exists w1, w2. repeat conj; try assumption.
  rewrite M1. destruct k as [|k]; [lia|].
  unfold mutex_at. rewrite <- Pos.of_nat_succ. cbn [Z.of_nat]. reflexivity.
Qed.

Lemma nested_Acquire_then_Release_witness :
  exists w1 w2,
    times 3 (Acquire false 7%nat) (mkWorld Lock_ctor []) = Returns tt w1 /\
    recursion_count_shadow_ (self w1) = 3 /\
    lock_ (self w1) = LockImpl.Held 7%nat 3 /\
    times 3 (Release false 7%nat) w1 = Returns tt w2 /\
    recursion_count_shadow_ (self w2) = 0 /\
    lock_ (self w2) = LockImpl.Free.
Proof.
  apply (@nested_Acquire_then_Release false 7%nat 3 (mkWorld Lock_ctor [])).
  - lia.
  - vm_compute. discriminate.
  - reflexivity.
  - reflexivity.
Defined.

(** ** What [GetCurrentThreadRecursionCount] and [~Lock] compute *)

Lemma GetCurrentThreadRecursionCount_production (who : thread) (w : World) :
  GetCurrentThreadRecursionCount true who w =
  Returns (recursion_count_shadow_ (self w))
          (mkWorld (self w)
                   (log w ++ GetCurrentThreadRecursionCount_trace true who)).
Proof. destruct w as [[m n u a c] h]. reflexivity. Qed.

Lemma GetCurrentThreadRecursionCount_debug_free (who : thread) (w : World) :
  LockImpl.available who (lock_ (self w)) = true ->
  GetCurrentThreadRecursionCount false who w =
  let w' := mkWorld (self w)
                    (log w ++ GetCurrentThreadRecursionCount_trace false who) in
  if recursion_count_shadow_ (self w) >=? 1
  then Returns (recursion_count_shadow_ (self w)) w'
  else Aborts w'.
Proof.
  destruct w as [[m n u a c] h]. cbn [self lock_ log]. intros Hav.
  run_method. rewrite Hav. reduce_method.
  rewrite (Unlock_grant _ _ Hav). reduce_method.
  unfold GetCurrentThreadRecursionCount_trace.
  rewrite <- !app_assoc. cbn [app].
  destruct (n >=? 1); reflexivity.
Qed.

Lemma GetCurrentThreadRecursionCount_debug_busy (who : thread) (w : World) :
  LockImpl.available who (lock_ (self w)) = false ->
  exists k,
    GetCurrentThreadRecursionCount false who w =
    Parked (mkWorld (self w)
                    (log w ++ [Called mGetCurrentThreadRecursionCount who;
                               OnMutex pLock who])) k
    /\ forall w2, k w2 = GetCurrentThreadRecursionCount_resume who w2.
Proof.
  destruct w as [[m n u a c] h]. cbn [self lock_ log]. intros Hav.
  run_method. rewrite Hav. reduce_method.
  rewrite <- !app_assoc. cbn [app].
  eexists. split; [reflexivity|].
  intros [[m2 n2 u2 a2 c2] h2]. unfold GetCurrentThreadRecursionCount_resume.
  reduce_method.
  destruct (LockImpl.available who m2) eqn:Hav2; reduce_method; [|reflexivity].
  rewrite (Unlock_grant _ _ Hav2). reduce_method.
  destruct (n2 >=? 1); reflexivity.
Qed.


Lemma Lock_dtor_debug_free (who : thread) (w : World) :
  LockImpl.available who (lock_ (self w)) = true ->
  Lock_dtor false who w =
  let w' := mkWorld (self w)
                    (log w ++ [Called mDestroy who; OnMutex pLock who;
                               OnMutex pUnlock who]) in
  if 0 =? recursion_count_shadow_ (self w) then Returns tt w' else Aborts w'.
Proof.
  destruct w as [[m n u a c] h]. cbn [self lock_ log]. intros Hav.
  run_method. rewrite Hav. reduce_method.
  rewrite (Unlock_grant _ _ Hav). reduce_method.
  rewrite <- !app_assoc. cbn [app].
  destruct (0 =? n); reflexivity.
Qed.


Lemma holder_reads_depth
      (NDEBUG : bool) (who : thread) (d : Z) (w : World) :
  1 <= d -> held_at who d (self w) ->
  exists w',
    GetCurrentThreadRecursionCount NDEBUG who w = Returns d w' /\
    self w' = self w /\
    log w' = log w ++ GetCurrentThreadRecursionCount_trace NDEBUG who.
Proof.
  intros Hd [Hn Hm]. destruct NDEBUG.
  - rewrite GetCurrentThreadRecursionCount_production, Hn.
    eexists. split; [reflexivity|]. cbn [self log]. auto.
  - rewrite GetCurrentThreadRecursionCount_debug_free
      by (rewrite Hm; apply available_mutex_at).
    cbv zeta. rewrite Hn.
    replace (d >=? 1) with true by (symmetry; apply Z.geb_le; lia).
    eexists. split; [reflexivity|]. cbn [self log]. auto.
Qed.

(** ** C7: the recursion count as seen by the holder *)

(** C7. Called by the thread that holds the lock at depth d >= 1,
    [GetCurrentThreadRecursionCount] returns d in both builds and leaves
    the whole lock object as it was: depth, session and contention
    counters, latch and mutex.  The instrumented build reaches the mutex
    with one [Lock]/[Unlock] pair and nothing else; no counter moves. *)
Theorem GetCurrentThreadRecursionCount_by_holder
        (NDEBUG : bool) (who : thread) (d : Z) (w : World) :
  1 <= d -> held_at who d (self w) ->
  exists w',
    GetCurrentThreadRecursionCount NDEBUG who w = Returns d w' /\
    self w' = self w /\
    recursion_count_shadow_ (self w') = d /\
    acquisition_count_ (self w') = acquisition_count_ (self w) /\
    contention_count_ (self w') = contention_count_ (self w) /\
    recursion_used_ (self w') = recursion_used_ (self w) /\
    lock_ (self w') = lock_ (self w) /\
    log w' = log w ++ GetCurrentThreadRecursionCount_trace NDEBUG who.
Proof.
  intros Hd Hheld.
  destruct (holder_reads_depth NDEBUG who d w Hd Hheld)
    as (w' & E & S & L).
  exists w'. rewrite S. destruct Hheld as [Hn Hm]. auto 10.
Qed.

Lemma GetCurrentThreadRecursionCount_by_holder_witness :
  exists w',
    GetCurrentThreadRecursionCount false 4%nat
      (mkWorld (mkLock (LockImpl.Held 4%nat 2) 2 true 5 1) []) = Returns 2 w' /\
    self w' = mkLock (LockImpl.Held 4%nat 2) 2 true 5 1 /\
    recursion_count_shadow_ (self w') = 2 /\
    acquisition_count_ (self w') = 5 /\
    contention_count_ (self w') = 1 /\
    recursion_used_ (self w') = true /\
    lock_ (self w') = LockImpl.Held 4%nat 2 /\
    log w' = [Called mGetCurrentThreadRecursionCount 4%nat;
              OnMutex pLock 4%nat; OnMutex pUnlock 4%nat].
Proof.
  apply (@GetCurrentThreadRecursionCount_by_holder false 4%nat 2
           (mkWorld (mkLock (LockImpl.Held 4%nat 2) 2 true 5 1) [])).
  - lia.
  - split; reflexivity.
Defined.

(** ** C8: the recursion count asked for by a thread that holds nothing *)

(** C8 fails in the instrumented build: on the freshly constructed lock,
    which no thread holds, the check [DCHECK(temp >= 1)] fires. *)
Lemma unheld_query_aborts_when_instrumented :
  recursion_count_shadow_ Lock_ctor = 0 /\
  lock_ Lock_ctor = LockImpl.Free /\
  GetCurrentThreadRecursionCount false 1%nat (mkWorld Lock_ctor []) =
  Aborts (mkWorld Lock_ctor
                  [Called mGetCurrentThreadRecursionCount 1%nat;
                   OnMutex pLock 1%nat; OnMutex pUnlock 1%nat]).
Proof. repeat split. Qed.

(** C8, amended. On a lock that no thread holds (depth 0, mutex free) the
    production build returns the depth 0 without any check and changes
    nothing; the instrumented build takes and drops the mutex and then
    fails its [DCHECK(temp >= 1)], the lock object unchanged. *)
Theorem GetCurrentThreadRecursionCount_unheld (who : thread) (w : World) :
  recursion_count_shadow_ (self w) = 0 -> lock_ (self w) = LockImpl.Free ->
  GetCurrentThreadRecursionCount true who w =
    Returns 0 (mkWorld (self w)
                       (log w ++ [Called mGetCurrentThreadRecursionCount who]))
  /\
  GetCurrentThreadRecursionCount false who w =
    Aborts (mkWorld (self w)
                    (log w ++ [Called mGetCurrentThreadRecursionCount who;
                               OnMutex pLock who; OnMutex pUnlock who])).
Proof.
  intros Hn Hm. split.
  - rewrite GetCurrentThreadRecursionCount_production, Hn. reflexivity.
  - rewrite GetCurrentThreadRecursionCount_debug_free by (rewrite Hm; reflexivity).
    cbv zeta. rewrite Hn. reflexivity.
Qed.

Lemma GetCurrentThreadRecursionCount_unheld_witness :
  GetCurrentThreadRecursionCount true 1%nat (mkWorld Lock_ctor []) =
    Returns 0 (mkWorld Lock_ctor [Called mGetCurrentThreadRecursionCount 1%nat])
  /\
  GetCurrentThreadRecursionCount false 1%nat (mkWorld Lock_ctor []) =
    Aborts (mkWorld Lock_ctor
                    [Called mGetCurrentThreadRecursionCount 1%nat;
                     OnMutex pLock 1%nat; OnMutex pUnlock 1%nat]).
Proof.
  apply (@GetCurrentThreadRecursionCount_unheld 1%nat (mkWorld Lock_ctor []));
    reflexivity.
Defined.

(** ** C9: destroying the lock *)



(** ** The loops of [AutoUnlock] *)

(** One round of either loop keeps the fuel equal to the loop counter. *)
Lemma loop_fuel_exact (count : Z) :
  is_int32 count -> 0 < count ->
  Z.to_nat (wrap32 (count - 1)) = pred (Z.to_nat count).
Proof.
  intros H Hpos. rewrite wrap32_pred.
  - lia.
  - unfold can_decrement, is_int32, INT32_MIN, INT32_MAX in *. lia.
Qed.

Lemma release_loop_held (NDEBUG : bool) (who : thread) (fuel : nat) :
  forall (count rc : Z) (w : World),
    held_at who count (self w) ->
    0 <= count -> 0 <= rc -> rc + count <= INT32_MAX ->
    (Z.to_nat count <= fuel)%nat ->
    exists w',
      release_loop NDEBUG fuel who count (mkAutoUnlock rc) w =
        Returns (mkAutoUnlock (rc + count)) w' /\
      held_at who 0 (self w') /\
      calls mRelease (log w') = (calls mRelease (log w) + Z.to_nat count)%nat /\
      calls mAcquire (log w') = calls mAcquire (log w).
Proof.
  induction fuel as [|fuel IH]; intros count rc w Hheld Hc Hrc Hsum Hfuel.
  - assert (count = 0) by lia. subst count.
    exists w. cbn. unfold ret. rewrite Z.add_0_r, Nat.add_0_r. auto.
  - cbn [release_loop]. destruct (Z.gtb_spec count 0) as [Hpos|Hzero].
    + destruct (@Release_held NDEBUG who count w Hheld)
        as (w1 & E1 & H1 & L1 & _); [lia|].
      unfold bind at 1. rewrite E1. cbn [bind_result release_count_].
      rewrite wrap32_pred, wrap32_succ
        by (unfold can_decrement, can_increment, INT32_MIN; lia).
      destruct (IH (count - 1) (rc + 1) w1 H1) as (w' & E' & H' & CR & CA);
        try lia.
      exists w'. rewrite E'.
      replace (rc + 1 + (count - 1)) with (rc + count) by lia.
      repeat conj; auto.
      * rewrite CR, L1, !calls_app. cbn. lia.
      * rewrite CA, L1, !calls_app. cbn. lia.
    + assert (count = 0) by lia. subst count.
      exists w. unfold ret. rewrite Z.add_0_r, Nat.add_0_r. auto.
Qed.

Lemma acquire_loop_held (NDEBUG : bool) (who : thread) (fuel : nat) :
  forall (rc d : Z) (w : World),
    held_at who d (self w) ->
    0 <= d -> 0 <= rc -> d + rc <= INT32_MAX ->
    (Z.to_nat rc <= fuel)%nat ->
    exists w',
      acquire_loop NDEBUG fuel who (mkAutoUnlock rc) w =
        Returns (mkAutoUnlock (-1)) w' /\
      held_at who (d + rc) (self w') /\
      calls mAcquire (log w') = (calls mAcquire (log w) + Z.to_nat rc)%nat /\
      calls mRelease (log w') = calls mRelease (log w).
Proof.
  induction fuel as [|fuel IH]; intros rc d w Hheld Hd Hrc Hsum Hfuel.
  - assert (rc = 0) by lia. subst rc.
    exists w. cbn. unfold ret. rewrite Z.add_0_r, Nat.add_0_r. auto.
  - cbn [acquire_loop release_count_].
    destruct (Z.gtb_spec rc 0) as [Hpos|Hzero].
    + destruct (@Acquire_held NDEBUG who d w Hheld) as (w1 & E1 & H1 & L1); [lia|].
      unfold bind at 1. rewrite E1. cbn [bind_result].
      rewrite wrap32_pred by (unfold can_decrement, INT32_MIN; lia).
      destruct (IH (rc - 1) (d + 1) w1 H1) as (w' & E' & H' & CA & CR);
        try lia.
      exists w'. rewrite E'.
      replace (d + 1 + (rc - 1)) with (d + rc) in H' by lia.
      repeat conj; auto.
      * rewrite CA, L1, !calls_app. cbn. lia.
      * rewrite CR, L1, !calls_app. cbn. lia.
    + assert (rc = 0) by lia. subst rc.
      exists w. unfold ret. rewrite Z.add_0_r, Nat.add_0_r. auto.
Qed.

(** ** C3: the round trip of [AutoUnlock] *)

(** C3. On a lock that the calling thread holds at depth d >= 1 (d an
    [int32]), in both builds: the constructor returns with
    [release_count_] equal to d after exactly d calls of [Release], and the
    lock is then held by nobody (depth 0, mutex free); the destructor, run
    on that world with nothing in between, returns after exactly
    [release_count_] calls of [Acquire], and the thread holds the lock at
    depth d again. *)
Theorem AutoUnlock_round_trip
        (NDEBUG : bool) (who : thread) (d : Z) (w : World) :
  1 <= d <= INT32_MAX -> held_at who d (self w) ->
  exists au w1 au' w2,
    AutoUnlock_ctor NDEBUG who w = Returns au w1 /\
    release_count_ au = d /\
    calls mRelease (log w1) = (calls mRelease (log w) + Z.to_nat d)%nat /\
    calls mAcquire (log w1) = calls mAcquire (log w) /\
    recursion_count_shadow_ (self w1) = 0 /\
    lock_ (self w1) = LockImpl.Free /\
    AutoUnlock_dtor NDEBUG who au w1 = Returns au' w2 /\
    calls mAcquire (log w2) =
      (calls mAcquire (log w1) + Z.to_nat (release_count_ au))%nat /\
    calls mRelease (log w2) = calls mRelease (log w1) /\
    recursion_count_shadow_ (self w2) = d /\
    lock_ (self w2) = LockImpl.Held who (Z.to_pos d).
Proof.
  intros Hd Hheld.
  destruct (@holder_reads_depth NDEBUG who d w)
    as (w0 & E0 & S0 & L0); [lia|assumption|].
  assert (H0 : held_at who d (self w0)) by (rewrite S0; assumption).
  destruct (@release_loop_held NDEBUG who (Z.to_nat d) d 0 w0 H0)
    as (w1 & E1 & [N1 M1] & CR1 & CA1); try lia.
  destruct (@acquire_loop_held NDEBUG who (Z.to_nat d) d 0 w1)
    as (w2 & E2 & [N2 M2] & CA2 & CR2); try lia; [split; assumption|].
  exists (mkAutoUnlock d), w1, (mkAutoUnlock (-1)), w2.
  assert (Hgt : (d >? 0) = true) by (apply Z.gtb_lt; lia).
  assert (Hge : (d >=? 0) = true) by (apply Z.geb_le; lia).
  repeat conj; auto.
  - unfold AutoUnlock_ctor. unfold bind at 1. rewrite E0. cbn [bind_result].
    unfold bind at 1, DCHECK. rewrite Hgt.
    destruct NDEBUG; cbn [ret bind_result]; exact E1.
  - rewrite CR1, L0, calls_app.
    destruct NDEBUG; cbn; lia.
  - rewrite CA1, L0, calls_app.
    destruct NDEBUG; cbn; lia.
  - unfold AutoUnlock_dtor. cbn [release_count_].
    unfold bind at 1, DCHECK. rewrite Hge.
    destruct NDEBUG; cbn [ret bind_result]; exact E2.
  - rewrite M2. destruct d; try lia. reflexivity.
Qed.

Lemma AutoUnlock_round_trip_witness :
  exists au w1 au' w2,
    AutoUnlock_ctor false 3%nat
      (mkWorld (mkLock (LockImpl.Held 3%nat 2) 2 true 1 0) []) = Returns au w1 /\
    release_count_ au = 2 /\
    calls mRelease (log w1) = 2%nat /\
    calls mAcquire (log w1) = 0%nat /\
    recursion_count_shadow_ (self w1) = 0 /\
    lock_ (self w1) = LockImpl.Free /\
    AutoUnlock_dtor false 3%nat au w1 = Returns au' w2 /\
    calls mAcquire (log w2) =
      (calls mAcquire (log w1) + Z.to_nat (release_count_ au))%nat /\
    calls mRelease (log w2) = calls mRelease (log w1) /\
    recursion_count_shadow_ (self w2) = 2 /\
    lock_ (self w2) = LockImpl.Held 3%nat 2.
Proof.
  apply (@AutoUnlock_round_trip false 3%nat 2
           (mkWorld (mkLock (LockImpl.Held 3%nat 2) 2 true 1 0) [])).
  - unfold INT32_MAX. lia.
  - split; reflexivity.
Defined.

(** ** C10: [AutoUnlock] over a lock that is not held, production build *)

(** C10. Production build, depth 0: the constructor returns with
    [release_count_] equal to 0, without a call of [Release] and with the
    lock object unchanged; the destructor then returns without a call of
    [Acquire], the lock object still unchanged.  No check fires and
    nothing blocks. *)
Theorem AutoUnlock_unheld_production (who : thread) (w : World) :
  recursion_count_shadow_ (self w) = 0 ->
  exists au w1 au' w2,
    AutoUnlock_ctor true who w = Returns au w1 /\
    release_count_ au = 0 /\
    calls mRelease (log w1) = calls mRelease (log w) /\
    self w1 = self w /\
    AutoUnlock_dtor true who au w1 = Returns au' w2 /\
    calls mAcquire (log w2) = calls mAcquire (log w) /\
    self w2 = self w.
Proof.
  intros Hn. unfold AutoUnlock_ctor, AutoUnlock_dtor.
  unfold bind at 1. rewrite GetCurrentThreadRecursionCount_production, Hn.
  cbn [bind_result]. cbn.
  eexists _, _, _, _. repeat conj; try reflexivity;
    cbn [log]; rewrite calls_app; cbn; lia.
Qed.

Lemma AutoUnlock_unheld_production_witness :
  exists au w1 au' w2,
    AutoUnlock_ctor true 2%nat (mkWorld Lock_ctor []) = Returns au w1 /\
    release_count_ au = 0 /\
    calls mRelease (log w1) = 0%nat /\
    self w1 = Lock_ctor /\
    AutoUnlock_dtor true 2%nat au w1 = Returns au' w2 /\
    calls mAcquire (log w2) = 0%nat /\
    self w2 = Lock_ctor.
Proof.
  apply (AutoUnlock_unheld_production 2%nat (mkWorld Lock_ctor [])).
  reflexivity.
Defined.

(** ** C4: the contract of [Try] *)

(** C4. [Try] makes one non-blocking attempt on the mutex and returns its
    verdict; it never blocks, aborts or leaves the mutex contract.  On
    success the lock object is the one [Acquire] leaves when called in the
    same world, the contention counter is untouched, and the bookkeeping is
    that of an entry.  On failure it returns [false] and the lock object,
    mutex included, is unchanged. *)
Theorem Try_contract (NDEBUG : bool) (who : thread) (w : World) :
  match Try NDEBUG who w with
  | Returns ok w' =>
      LockImpl.Try who (lock_ (self w)) = (ok, lock_ (self w')) /\
      log w' = log w ++ [Called mTry who; OnMutex (pTry ok) who] /\
      contention_count_ (self w') = contention_count_ (self w) /\
      if ok then
        (exists wa, Acquire NDEBUG who w = Returns tt wa /\ self w' = self wa) /\
        (headroom (self w) ->
         if NDEBUG then only_depth_bumped (self w) (self w')
         else entry_bookkeeping (self w) (self w'))
      else self w' = self w
  | _ => False
  end.
Proof.
  rewrite Try_eq. unfold LockImpl.Try.
  destruct (LockImpl.available who (lock_ (self w))) eqn:Hav.
  - cbn [self log]. destruct NDEBUG.
    + repeat conj; try reflexivity.
      * rewrite (Acquire_production_free _ _ Hav). eexists. split; reflexivity.
      * intros H. unfold only_depth_bumped. repeat conj; try reflexivity.
        intros Hc. apply wrap32_succ, Hc.
    + repeat conj; try reflexivity.
      * rewrite (Acquire_debug_free _ _ Hav). eexists. split; reflexivity.
      * intros H. apply entered_bookkeeping, H.
  - cbn [self log]. repeat conj; reflexivity.
Qed.

Lemma Try_contract_witness :
  headroom (mkLock (LockImpl.Held 5%nat 1) 1 false 1 0) /\
  entry_bookkeeping (mkLock (LockImpl.Held 5%nat 1) 1 false 1 0)
                    (mkLock (LockImpl.Held 5%nat 2) 2 true 1 0) /\
  Try false 6%nat (mkWorld (mkLock (LockImpl.Held 5%nat 1) 1 false 1 0) []) =
  Returns false (mkWorld (mkLock (LockImpl.Held 5%nat 1) 1 false 1 0)
                         [Called mTry 6%nat; OnMutex (pTry false) 6%nat]).
Proof.
  assert (H : headroom (mkLock (LockImpl.Held 5%nat 1) 1 false 1 0)).
  { unfold headroom, can_increment, INT32_MIN, INT32_MAX. cbn. lia. }
  split; [exact H|]. split; [|reflexivity].
  pose proof (@Try_contract false 5%nat
                (mkWorld (mkLock (LockImpl.Held 5%nat 1) 1 false 1 0) []))
    as Hc.
  rewrite Try_eq in Hc. cbn [LockImpl.available self lock_ Nat.eqb] in Hc.
  destruct Hc as (_ & _ & _ & _ & Hb). exact (Hb H).
Defined.

(** ** Steps of the instrumented lock *)

Lemma step_none (l : Lock) : lock_step l l.
Proof.
  replace l with (set_lock_ (lock_ l) l) at 2 by (destruct l; reflexivity).
  constructor.
Qed.

Lemma Acquire_steps (who : thread) (w : World) :
  outcome_steps w (Acquire false who w).
Proof.
  destruct (LockImpl.available who (lock_ (self w))) eqn:Hav.
  - rewrite (Acquire_debug_free _ _ Hav). cbn. constructor.
  - destruct (Acquire_debug_busy _ _ Hav) as (k & -> & Hk). cbn.
    split; [reflexivity|]. intros w2. rewrite Hk. unfold Acquire_resume.
    destruct (LockImpl.available who (lock_ (self w2))); [|exact I].
    cbn. constructor.
Qed.

Lemma Release_steps (who : thread) (w : World) :
  outcome_steps w (Release false who w).
Proof.
  rewrite Release_eq. cbv zeta. cbn [negb andb].
  unfold set_recursion_count_shadow_ at 1. cbn [recursion_count_shadow_].
  destruct (Z.leb_spec 0 (wrap32 (recursion_count_shadow_ (self w) - 1)));
    cbn [negb]; [|exact I].
  destruct (LockImpl.Unlock who (lock_ (self w))); [|exact I].
  cbn. constructor. assumption.
Qed.

Lemma Try_steps (who : thread) (w : World) :
  outcome_steps w (bind (Try false who) (fun _ => ret tt) w).
Proof.
  unfold bind. rewrite Try_eq.
  destruct (LockImpl.available who (lock_ (self w))); cbn.
  - constructor.
  - apply step_none.
Qed.

Lemma GetCurrentThreadRecursionCount_steps (who : thread) (w : World) :
  outcome_steps w
    (bind (GetCurrentThreadRecursionCount false who) (fun _ => ret tt) w).
Proof.
  unfold bind.
  destruct (LockImpl.available who (lock_ (self w))) eqn:Hav.
  - rewrite (GetCurrentThreadRecursionCount_debug_free _ _ Hav). cbv zeta.
    destruct (recursion_count_shadow_ (self w) >=? 1); cbn; [|exact I].
    apply step_none.
  - destruct (GetCurrentThreadRecursionCount_debug_busy _ _ Hav)
      as (k & -> & Hk). cbn.
    split; [reflexivity|]. intros w2. rewrite Hk.
    unfold GetCurrentThreadRecursionCount_resume.
    destruct (LockImpl.available who (lock_ (self w2))); [|exact I].
    cbv zeta.
    destruct (recursion_count_shadow_ (self w2) >=? 1); cbn; [|exact I].
    apply step_none.
Qed.

Lemma invoke_steps (o : op) (who : thread) (w : World) :
  outcome_steps w (invoke false o who w).
Proof.
  destruct o; cbn [invoke].
  - apply Acquire_steps.
  - apply Release_steps.
  - apply Try_steps.
  - apply GetCurrentThreadRecursionCount_steps.
Qed.

(** What one step of the lock does to the latch, the depth and the
    session counter. *)

Lemma lock_step_latch_stays (l l' : Lock) :
  lock_step l l' -> recursion_used_ l = true -> recursion_used_ l' = true.
Proof.
  intros [m|c m|m H] Hu; lock_fields; try assumption.
  rewrite Hu. cbn [negb]. rewrite andb_false_r.
  destruct (1 =? wrap32 (recursion_count_shadow_ l + 1)); reflexivity.
Qed.

Lemma lock_step_latch_set (l l' : Lock) :
  lock_step l l' ->
  recursion_used_ l = false -> recursion_used_ l' = true ->
  recursion_count_shadow_ l' = 2.
Proof.
  intros [m|c m|m H] Hu Hu'; lock_fields; try congruence.
  rewrite Hu in Hu'. cbn [negb] in Hu'.
  destruct (1 =? wrap32 (recursion_count_shadow_ l + 1)); [congruence|].
  destruct (Z.eqb_spec 2 (wrap32 (recursion_count_shadow_ l + 1)));
    cbn [andb] in Hu'; congruence.
Qed.

Lemma lock_step_latch_tracks (l l' : Lock) :
  lock_step l l' -> latch_tracks_depth l -> latch_tracks_depth l'.
Proof.
  unfold latch_tracks_depth.
  intros [m|c m|m H] Hl; lock_fields; try assumption.
  - destruct (recursion_used_ l) eqn:Hu.
    + cbn [negb]. rewrite andb_false_r.
      destruct (1 =? wrap32 (recursion_count_shadow_ l + 1)); discriminate.
    + destruct (Hl eq_refl) as [E | E]; rewrite E; cbn; intros; auto.
      discriminate.
  - intros Hu. destruct (Hl Hu) as [E|E]; rewrite E in *; cbn in *; auto.
    lia.
Qed.

Lemma lock_step_int32 (l l' : Lock) :
  lock_step l l' -> int32_counters l -> int32_counters l'.
Proof.
  unfold int32_counters.
  intros [m|c m|m H] (Hn & Ha & Hc); lock_fields; auto using wrap32_is_int32.
  repeat conj.
  - apply wrap32_is_int32.
  - destruct (1 =? wrap32 (recursion_count_shadow_ l + 1));
      auto using wrap32_is_int32.
  - destruct c; auto using wrap32_is_int32.
Qed.

Lemma lock_step_session (l l' : Lock) :
  lock_step l l' -> int32_counters l -> acquisition_count_ l < INT32_MAX ->
  (acquisition_count_ l' = acquisition_count_ l + 1 <->
   recursion_count_shadow_ l = 0 /\ recursion_count_shadow_ l' = 1) /\
  (acquisition_count_ l' = acquisition_count_ l \/
   acquisition_count_ l' = acquisition_count_ l + 1).
Proof.
  intros Hstep ([Hn1 Hn2] & [Ha1 Ha2] & _) Hmax.
  destruct Hstep as [m|c m|m H]; lock_fields.
  - split; [|auto]. split; [lia|]. intros [E1 E2]. lia.
  - assert (Hw : wrap32 (acquisition_count_ l + 1) = acquisition_count_ l + 1)
      by (apply wrap32_succ; split; assumption).
    rewrite Hw.
    destruct (Z.eq_dec (recursion_count_shadow_ l) INT32_MAX) as [Emax|Emax].
    + rewrite Emax. cbn. unfold INT32_MAX in *. split; [|auto].
      split; intros; lia.
    + rewrite wrap32_succ by (unfold can_increment; lia).
      destruct (Z.eqb_spec 1 (recursion_count_shadow_ l + 1)).
      * split; [|auto]. split; intros; lia.
      * split; [|auto]. split; intros; lia.
  - split; [|auto]. split; [lia|]. intros [E1 E2]. rewrite E1 in *.
    cbn in E2. discriminate.
Qed.

(** ** Runs of the instrumented system *)

Lemma parked_at_In (who : thread) (ws : list (thread * continuation))
      (k : continuation) :
  parked_at who ws = Some k -> exists t, In (t, k) ws.
Proof.
  induction ws as [|[t k'] ws IH]; cbn; [discriminate|].
  destruct (Nat.eqb t who).
  - intros [= ->]. eauto.
  - intros H. destruct (IH H) as [t' Ht']. eauto.
Qed.

Lemma unpark_incl (who : thread) (ws : list (thread * continuation)) :
  incl (unpark who ws) ws.
Proof.
  induction ws as [|[t k] ws IH]; cbn; [apply incl_refl|].
  destruct (Nat.eqb t who).
  - apply incl_tl, incl_refl.
  - apply incl_cons; [left; reflexivity|]. apply incl_tl, IH.
Qed.

Lemma settle_sound (who : thread) (w : World) (r : result unit)
      (ws : list (thread * continuation)) (s' : System) :
  Forall (fun tk => resumes_in_one_step (snd tk)) ws ->
  match r with
  | Returns _ w' => lock_step (self w) (self w')
  | Parked w1 k => self w1 = self w /\ resumes_in_one_step k
  | _ => True
  end ->
  settle who r ws = Some s' ->
  Forall (fun tk => resumes_in_one_step (snd tk)) (waiting s') /\
  lock_step (self w) (self (shared s')).
Proof.
  intros Hws Hr. destruct r as [[] w'|w'|w'|w1 k]; cbn [settle];
    try discriminate; intros [= <-]; cbn [waiting shared].
  - auto.
  - destruct Hr as [E Hk]. rewrite E. split; [|apply step_none].
    constructor; assumption.
Qed.

Lemma step_sound (a : action) (s s' : System) :
  Forall (fun tk => resumes_in_one_step (snd tk)) (waiting s) ->
  step false a s = Some s' ->
  Forall (fun tk => resumes_in_one_step (snd tk)) (waiting s') /\
  lock_step (self (shared s)) (self (shared s')).
Proof.
  intros Hws. destruct a as [who o|who]; cbn [step].
  - destruct (parked_at who (waiting s)); [discriminate|].
    apply settle_sound; [assumption|]. apply (invoke_steps o who (shared s)).
  - destruct (parked_at who (waiting s)) as [k|] eqn:Hk; [|discriminate].
    destruct (parked_at_In _ _ _ Hk) as [t Hin].
    assert (Hres : resumes_in_one_step k).
    { rewrite Forall_forall in Hws. apply (Hws (t, k) Hin). }
    specialize (Hres (shared s)).
    destruct (k (shared s)) as [r|]; [|discriminate].
    intros Hsettle.
    assert (Hws' : Forall (fun tk => resumes_in_one_step (snd tk))
                          (unpark who (waiting s))).
    { rewrite Forall_forall in *. intros x Hx.
      apply Hws, (unpark_incl who (waiting s)), Hx. }
    destruct r as [[] w'|w'|w'|w1 k']; cbn [settle] in Hsettle;
      try discriminate; try contradiction.
    injection Hsettle as <-. cbn [waiting shared]. auto.
Qed.

Lemma step_preserves_sound (a : action) (s s' : System) :
  sound s -> step false a s = Some s' ->
  sound s' /\ lock_step (self (shared s)) (self (shared s')).
Proof.
  intros (Hws & Hl & Hi) Hstep.
  destruct (step_sound a s _ Hws Hstep) as [Hws' Hls].
  split; [|assumption].
  unfold sound. repeat conj; eauto using lock_step_latch_tracks, lock_step_int32.
Qed.

Lemma boot_sound : sound boot.
Proof.
  unfold sound. repeat conj.
  - constructor.
  - intros _. left. reflexivity.
  - unfold int32_counters, is_int32, INT32_MIN, INT32_MAX. cbn. lia.
Qed.

Lemma exec_app (NDEBUG : bool) (acts1 acts2 : list action) (s : System) :
  exec NDEBUG (acts1 ++ acts2) s =
  match exec NDEBUG acts1 s with
  | Some s1 => exec NDEBUG acts2 s1
  | None => None
  end.
Proof.
  revert s. induction acts1 as [|a acts1 IH]; intros s; cbn; [reflexivity|].
  destruct (step NDEBUG a s); auto.
Qed.

Lemma exec_preserves_sound (acts : list action) :
  forall s s', sound s -> exec false acts s = Some s' -> sound s'.
Proof.
  induction acts as [|a acts IH]; intros s s' Hs; cbn.
  - intros [= <-]. assumption.
  - destruct (step false a s) as [s1|] eqn:E; [|discriminate].
    apply IH. apply (step_preserves_sound a s _ Hs E).
Qed.

Lemma exec_latch_stays (acts : list action) :
  forall s s',
    sound s -> exec false acts s = Some s' ->
    recursion_used_ (self (shared s)) = true ->
    recursion_used_ (self (shared s')) = true.
Proof.
  induction acts as [|a acts IH]; intros s s' Hs; cbn.
  - intros [= <-]. auto.
  - destruct (step false a s) as [s1|] eqn:E; [|discriminate].
    destruct (step_preserves_sound a s _ Hs E) as [Hs1 Hstep].
    intros Hexec Hu. apply (IH s1 s' Hs1 Hexec).
    apply (lock_step_latch_stays _ _ Hstep Hu).
Qed.

(** ** C5: the latch [recursion_used_] *)

(** C5. Instrumented build, any run of [Acquire], [Try], [Release] and
    recursion-count queries by any threads from the constructed lock: at
    every point of the run the latch is set exactly when some step so far
    has brought the depth to 2.  So it is clear before the first such
    step, set by that very step, and, once set, stays set however the run
    goes on. *)
Theorem recursion_used_latches (acts : list action) (s : System) :
  exec false acts boot = Some s ->
  (recursion_used_ (self (shared s)) = true <->
   exists acts1 acts2 s1,
     acts = acts1 ++ acts2 /\
     exec false acts1 boot = Some s1 /\
     recursion_count_shadow_ (self (shared s1)) = 2)
  /\
  (forall more s',
     exec false more s = Some s' ->
     recursion_used_ (self (shared s)) = true ->
     recursion_used_ (self (shared s')) = true).
Proof.
  intros Hexec. split.
  2:{ intros more s' Hmore.
      apply (exec_latch_stays more); [|assumption].
      apply (exec_preserves_sound acts _ _ boot_sound Hexec). }
  revert s Hexec. induction acts as [|a acts IH] using rev_ind; intros s.
  - cbn. intros [= <-]. split; [discriminate|].
    intros (acts1 & acts2 & s1 & E & E1 & E2).
    symmetry in E. apply app_eq_nil in E. destruct E as [-> ->].
    cbn in E1. injection E1 as <-. discriminate.
  - rewrite exec_app.
    destruct (exec false acts boot) as [s0|] eqn:E0; [|discriminate].
    cbn [exec]. destruct (step false a s0) as [s1|] eqn:Estep; [|discriminate].
    intros [= <-].
    assert (Hs0 : sound s0) by apply (exec_preserves_sound acts _ _ boot_sound E0).
    destruct (step_preserves_sound a s0 _ Hs0 Estep) as [Hs1 Hstep].
    specialize (IH s0 eq_refl). split.
    + intros Hu. destruct (recursion_used_ (self (shared s0))) eqn:Hu0.
      * destruct IH as [IH _]. destruct (IH eq_refl) as (a1 & a2 & s' & E & E1 & E2).
        exists a1, (a2 ++ [a]), s'. rewrite app_assoc, E. auto.
      * exists (acts ++ [a]), [], s1. rewrite app_nil_r, exec_app, E0.
        cbn [exec]. rewrite Estep. repeat conj; auto.
        apply (lock_step_latch_set _ _ Hstep Hu0 Hu).
    + intros (a1 & a2 & s' & E & E1 & E2).
      destruct a2 as [|x a2] using rev_ind.
      * rewrite app_nil_r in E. subst a1.
        rewrite exec_app, E0 in E1. cbn [exec] in E1. rewrite Estep in E1.
        injection E1 as <-.
        destruct Hs1 as (_ & Hl & _).
        destruct (recursion_used_ (self (shared s1))) eqn:Hu; [reflexivity|].
        destruct (Hl Hu); lia.
      * rewrite app_assoc in E. apply app_inj_tail in E. destruct E as [-> ->].
        apply (lock_step_latch_stays _ _ Hstep).
        apply IH. exists a1, a2, s'. auto.
Qed.

Lemma recursion_used_latches_witness :
  (recursion_used_
     (self (shared
        (mkSystem (mkWorld (mkLock (LockImpl.Held 0%nat 1) 1 true 1 0) []) [])))
   = true <->
   exists acts1 acts2 s1,
     [Invoke 0%nat OpAcquire; Invoke 0%nat OpTry; Invoke 0%nat OpRelease]
       = acts1 ++ acts2 /\
     exec false acts1 boot = Some s1 /\
     recursion_count_shadow_ (self (shared s1)) = 2).
Proof.
  destruct (@recursion_used_latches
              [Invoke 0%nat OpAcquire; Invoke 0%nat OpTry; Invoke 0%nat OpRelease]
              (mkSystem
                 (mkWorld (mkLock (LockImpl.Held 0%nat 1) 1 true 1 0)
                          [Called mAcquire 0%nat; OnMutex (pTry true) 0%nat;
                           Called mTry 0%nat; OnMutex (pTry true) 0%nat;
                           Called mRelease 0%nat; OnMutex pUnlock 0%nat])
                 [])) as [H _].
  - reflexivity.
  - exact H.
Defined.

(** ** C6: the session counter [acquisition_count_] *)

Lemma Release_keeps_sessions (who : thread) (w : World) :
  match Release false who w with
  | Returns _ w' =>
      acquisition_count_ (self w') = acquisition_count_ (self w)
  | Parked w' _ =>
      acquisition_count_ (self w') = acquisition_count_ (self w)
  | _ => True
  end.
Proof.
  rewrite Release_eq. cbv zeta.
  destruct (negb false && _); [exact I|].
  destruct (LockImpl.Unlock who (lock_ (self w))); [|exact I].
  reflexivity.
Qed.

Lemma GetCurrentThreadRecursionCount_keeps_sessions (who : thread) (w : World) :
  match bind (GetCurrentThreadRecursionCount false who) (fun _ => ret tt) w with
  | Returns _ w' =>
      acquisition_count_ (self w') = acquisition_count_ (self w)
  | Parked w' _ =>
      acquisition_count_ (self w') = acquisition_count_ (self w)
  | _ => True
  end.
Proof.
  unfold bind.
  destruct (LockImpl.available who (lock_ (self w))) eqn:Hav.
  - rewrite (GetCurrentThreadRecursionCount_debug_free _ _ Hav). cbv zeta.
    destruct (recursion_count_shadow_ (self w) >=? 1); cbn; auto.
  - destruct (GetCurrentThreadRecursionCount_debug_busy _ _ Hav)
      as (k & -> & _). reflexivity.
Qed.

Lemma settle_keeps_sessions (who : thread) (w : World) (r : result unit)
      (ws : list (thread * continuation)) (s' : System) :
  match r with
  | Returns _ w' =>
      acquisition_count_ (self w') = acquisition_count_ (self w)
  | Parked w' _ =>
      acquisition_count_ (self w') = acquisition_count_ (self w)
  | _ => True
  end ->
  settle who r ws = Some s' ->
  acquisition_count_ (self (shared s')) = acquisition_count_ (self w).
Proof.
  destruct r as [[] w'|w'|w'|w1 k]; cbn [settle]; intros H;
    try discriminate; intros [= <-]; exact H.
Qed.

(** C6. Instrumented build, any step of any run from the constructed lock
    (a method that returns, or a parked [Acquire] that is woken and
    completes): the session counter, if below [INT32_MAX], goes up by
    exactly 1 if and only if the step takes the depth from 0 to 1;
    otherwise it keeps its value, in particular on every step into depth
    2, 3 and deeper.  A [Release] and a recursion-count query never
    change it. *)
Theorem acquisition_count_counts_sessions
        (acts : list action) (a : action) (s s' : System) :
  exec false acts boot = Some s ->
  step false a s = Some s' ->
  acquisition_count_ (self (shared s)) < INT32_MAX ->
  (acquisition_count_ (self (shared s')) =
     acquisition_count_ (self (shared s)) + 1 <->
   recursion_count_shadow_ (self (shared s)) = 0 /\
   recursion_count_shadow_ (self (shared s')) = 1)
  /\
  (acquisition_count_ (self (shared s')) = acquisition_count_ (self (shared s)) \/
   acquisition_count_ (self (shared s')) =
     acquisition_count_ (self (shared s)) + 1)
  /\
  (forall who,
     a = Invoke who OpRelease \/
     a = Invoke who OpGetCurrentThreadRecursionCount ->
     acquisition_count_ (self (shared s')) =
       acquisition_count_ (self (shared s))).
Proof.
  intros Hexec Hstep Hmax.
  pose proof (exec_preserves_sound acts _ _ boot_sound Hexec) as Hs.
  destruct (step_preserves_sound a s s' Hs Hstep) as [_ Hls].
  destruct Hs as (_ & _ & Hi).
  destruct (lock_step_session _ _ Hls Hi Hmax) as [Hiff Hor].
  repeat conj; try assumption.
  intros who [-> | ->]; cbn [step invoke] in Hstep;
    destruct (parked_at who (waiting s)); try discriminate.
  - apply (settle_keeps_sessions who (shared s) _ _ _
             (Release_keeps_sessions who (shared s)) Hstep).
  - apply (settle_keeps_sessions who (shared s) _ _ _
             (GetCurrentThreadRecursionCount_keeps_sessions who (shared s)) Hstep).
Qed.

Lemma acquisition_count_counts_sessions_witness :
  (acquisition_count_ (mkLock (LockImpl.Held 0%nat 2) 2 true 1 0) = 1 + 1 <->
   recursion_count_shadow_ (mkLock (LockImpl.Held 0%nat 1) 1 false 1 0) = 0 /\
   recursion_count_shadow_ (mkLock (LockImpl.Held 0%nat 2) 2 true 1 0) = 1)
  /\
  (acquisition_count_ (mkLock (LockImpl.Held 0%nat 2) 2 true 1 0) = 1 \/
   acquisition_count_ (mkLock (LockImpl.Held 0%nat 2) 2 true 1 0) = 1 + 1).
Proof.
  destruct (acquisition_count_counts_sessions
              [Invoke 0%nat OpAcquire] (Invoke 0%nat OpAcquire)
              (mkSystem
                 (mkWorld (mkLock (LockImpl.Held 0%nat 1) 1 false 1 0)
                          [Called mAcquire 0%nat; OnMutex (pTry true) 0%nat])
                 [])
              (mkSystem
                 (mkWorld (mkLock (LockImpl.Held 0%nat 2) 2 true 1 0)
                          [Called mAcquire 0%nat; OnMutex (pTry true) 0%nat;
                           Called mAcquire 0%nat; OnMutex (pTry true) 0%nat])
                 [])) as (H1 & H2 & _).
  - reflexivity.
  - reflexivity.
  - unfold INT32_MAX. cbn. lia.
  - split; [exact H1 | exact H2].
Defined.

(** * Further properties of lock.cc *)

(** ** [Release] on its own *)

(** X1. [Release] never waits.  It writes the decremented depth first; the
    instrumented build then aborts exactly when that depth is negative,
    before any call on the mutex, which is left as it was; otherwise the
    mutex is unlocked once, and a caller that does not hold it has left
    the contract of the mutex.  No debug member is touched on any path. *)
Theorem Release_contract (NDEBUG : bool) (who : thread) (w : World) :
  match Release NDEBUG who w with
  | Returns _ w' =>
      LockImpl.Unlock who (lock_ (self w)) = Some (lock_ (self w')) /\
      log w' = log w ++ [Called mRelease who; OnMutex pUnlock who] /\
      (NDEBUG = false -> 0 <= recursion_count_shadow_ (self w')) /\
      only_depth_dropped (self w) (self w')
  | Aborts w' =>
      NDEBUG = false /\
      recursion_count_shadow_ (self w') < 0 /\
      lock_ (self w') = lock_ (self w) /\
      log w' = log w ++ [Called mRelease who] /\
      only_depth_dropped (self w) (self w')
  | Undefined w' =>
      LockImpl.Unlock who (lock_ (self w)) = None /\
      lock_ (self w') = lock_ (self w) /\
      (NDEBUG = false -> 0 <= recursion_count_shadow_ (self w')) /\
      only_depth_dropped (self w) (self w')
  | Parked _ _ => False
  end.
Proof.
  rewrite Release_eq. cbv zeta.
  assert (Hdrop : forall m,
             only_depth_dropped (self w)
               (set_lock_ m (set_recursion_count_shadow_
                               (wrap32 (recursion_count_shadow_ (self w) - 1))
                               (self w)))).
  { intros m. unfold only_depth_dropped. lock_fields. repeat conj; auto.
    apply wrap32_pred. }
  assert (Hdrop' : only_depth_dropped (self w)
               (set_recursion_count_shadow_
                  (wrap32 (recursion_count_shadow_ (self w) - 1)) (self w))).
  { unfold only_depth_dropped. lock_fields. repeat conj; auto.
    apply wrap32_pred. }
  unfold set_recursion_count_shadow_ at 1. cbn [recursion_count_shadow_].
  destruct NDEBUG; cbn [negb andb].
  - destruct (LockImpl.Unlock who (lock_ (self w))); cbn [self log];
      repeat conj; auto; discriminate.
  - destruct (Z.leb_spec 0 (wrap32 (recursion_count_shadow_ (self w) - 1)));
      cbn [negb].
    + destruct (LockImpl.Unlock who (lock_ (self w))); cbn [self log];
        repeat conj; auto.
    + cbn [self log]. repeat conj; auto.
Qed.

Lemma Release_contract_witness :
  only_depth_dropped (mkLock (LockImpl.Held 2%nat 3) 3 true 4 1)
                     (mkLock (LockImpl.Held 2%nat 2) 2 true 4 1) /\
  recursion_count_shadow_ (mkLock (LockImpl.Held 2%nat 2) 2 true 4 1) = 3 - 1.
Proof.
  pose proof (Release_contract false 2%nat
                (mkWorld (mkLock (LockImpl.Held 2%nat 3) 3 true 4 1) [])) as H.
  rewrite Release_eq in H. cbn in H.
  destruct H as (_ & _ & _ & Hd). split; [exact Hd|].
  destruct Hd as [Hd _]. apply Hd.
  unfold can_decrement, INT32_MIN, INT32_MAX. cbn. lia.
Defined.

(** X2. [Release] at depth 0.  The instrumented build writes depth -1 and
    aborts on [DCHECK(0 <= recursion_count_shadow_)] without a call on the
    mutex, whoever owns it; the production build has no check and goes on
    to unlock a mutex that, when nobody holds it, the caller does not hold
    either. *)
Theorem Release_at_depth_0 (who : thread) (w : World) :
  recursion_count_shadow_ (self w) = 0 ->
  Release false who w =
    Aborts (mkWorld (set_recursion_count_shadow_ (-1) (self w))
                    (log w ++ [Called mRelease who]))
  /\
  (lock_ (self w) = LockImpl.Free ->
   Release true who w =
     Undefined (mkWorld (set_recursion_count_shadow_ (-1) (self w))
                        (log w ++ [Called mRelease who; OnMutex pUnlock who]))).
Proof.
  intros Hn. split.
  - rewrite Release_eq, Hn. reflexivity.
  - intros Hm. rewrite Release_eq, Hn, Hm. reflexivity.
Qed.

Lemma Release_at_depth_0_witness :
  Release false 0%nat (mkWorld Lock_ctor []) =
    Aborts (mkWorld (mkLock LockImpl.Free (-1) false 0 0)
                    [Called mRelease 0%nat])
  /\
  (LockImpl.Free = LockImpl.Free ->
   Release true 0%nat (mkWorld Lock_ctor []) =
     Undefined (mkWorld (mkLock LockImpl.Free (-1) false 0 0)
                        [Called mRelease 0%nat; OnMutex pUnlock 0%nat])).
Proof.
  apply (Release_at_depth_0 0%nat (mkWorld Lock_ctor [])). reflexivity.
Defined.

(** X3. A [Release] by a thread that does not hold the lock, while another
    thread holds it at depth d >= 1, passes the depth check in both
    builds: the depth is written as d - 1 and the call then unlocks a
    mutex its caller does not own. *)
Theorem Release_by_non_holder
        (NDEBUG : bool) (who owner : thread) (p : positive) (w : World) :
  owner <> who ->
  lock_ (self w) = LockImpl.Held owner p ->
  1 <= recursion_count_shadow_ (self w) <= INT32_MAX ->
  Release NDEBUG who w =
    Undefined
      (mkWorld (set_recursion_count_shadow_
                  (recursion_count_shadow_ (self w) - 1) (self w))
               (log w ++ [Called mRelease who; OnMutex pUnlock who])).
Proof.
  intros Hneq Hm Hn. rewrite Release_eq. cbv zeta.
  rewrite wrap32_pred by (unfold can_decrement, INT32_MIN; lia).
  unfold set_recursion_count_shadow_ at 1. cbn [recursion_count_shadow_].
  replace (0 <=? recursion_count_shadow_ (self w) - 1) with true
    by (symmetry; apply Z.leb_le; lia).
  rewrite andb_false_r, Hm. cbn [LockImpl.Unlock].
  apply Nat.eqb_neq in Hneq. rewrite Hneq. reflexivity.
Qed.

Lemma Release_by_non_holder_witness :
  Release false 9%nat (mkWorld (mkLock (LockImpl.Held 8%nat 2) 2 true 1 0) []) =
    Undefined
      (mkWorld (mkLock (LockImpl.Held 8%nat 2) 1 true 1 0)
               [Called mRelease 9%nat; OnMutex pUnlock 9%nat]).
Proof.
  apply (Release_by_non_holder false 9%nat 8%nat 2
           (mkWorld (mkLock (LockImpl.Held 8%nat 2) 2 true 1 0) [])).
  - discriminate.
  - reflexivity.
  - unfold INT32_MAX. cbn. lia.
Defined.

(** ** Entries followed by exits *)

(** X4. An [Acquire] by the holder (or on a lock nobody holds) followed by
    its [Release]: both return, the depth and the mutex are back where
    they were and the contention counter has not moved.  The production
    build restores the whole lock object; the instrumented build keeps the
    trace of the visit: one more session when the lock was not held, the
    latch set when the visit reached depth 2. *)
Theorem Acquire_then_Release
        (NDEBUG : bool) (who : thread) (d : Z) (w : World) :
  0 <= d < INT32_MAX -> held_at who d (self w) ->
  exists w1 w2,
    Acquire NDEBUG who w = Returns tt w1 /\
    Release NDEBUG who w1 = Returns tt w2 /\
    recursion_count_shadow_ (self w2) = d /\
    lock_ (self w2) = lock_ (self w) /\
    contention_count_ (self w2) = contention_count_ (self w) /\
    (NDEBUG = true -> self w2 = self w) /\
    (NDEBUG = false ->
     can_increment (acquisition_count_ (self w)) ->
     acquisition_count_ (self w2) =
       acquisition_count_ (self w) + (if d =? 0 then 1 else 0) /\
     recursion_used_ (self w2) = recursion_used_ (self w) || (d =? 1)).
Proof.
  intros Hd [Hn Hm].
  assert (Hav : LockImpl.available who (lock_ (self w)) = true)
    by (rewrite Hm; apply available_mutex_at).
  assert (Hw : wrap32 (d + 1) = d + 1)
    by (apply wrap32_succ; unfold can_increment, INT32_MIN; lia).
  assert (Hw' : wrap32 (d + 1 - 1) = d).
  { replace (d + 1 - 1) with d by lia. apply wrap32_id.
    unfold is_int32, INT32_MIN, INT32_MAX in *. lia. }
  assert (Hpos : (0 <=? d) = true) by (apply Z.leb_le; lia).
  destruct NDEBUG.
  - pose proof (Acquire_production_free _ _ Hav) as EA.
    unfold entered_production in EA.
    destruct w as [[m n u a c] h]. lock_fields. subst n.
    rewrite EA. eexists _, _.
    split; [reflexivity|]. rewrite Release_eq.
    lock_fields. rewrite Hw, Hw', Hpos, (Unlock_grant _ _ Hav).
    cbn [negb andb]. split; [reflexivity|]. lock_fields.
    repeat conj; auto. discriminate.
  - pose proof (Acquire_debug_free _ _ Hav) as EA.
    destruct w as [[m n u a c] h]. lock_fields. subst n.
    rewrite EA. eexists _, _.
    split; [reflexivity|]. rewrite Release_eq.
    lock_fields. rewrite Hw, Hw', Hpos, (Unlock_grant _ _ Hav).
    cbn [negb andb]. split; [reflexivity|]. lock_fields.
    repeat conj; auto; try discriminate.
    intros _ Ha. rewrite ?Hw, ?(wrap32_succ _ Ha).
    destruct (Z.eqb_spec 1 (d + 1)); destruct (Z.eqb_spec d 0); try lia.
    + destruct (Z.eqb_spec d 1); try lia. rewrite orb_false_r. auto.
    + destruct (Z.eqb_spec 2 (d + 1)); destruct (Z.eqb_spec d 1); try lia;
        destruct u; cbn; split; auto; lia.
Qed.

Lemma Acquire_then_Release_witness :
  exists w1 w2,
    Acquire false 1%nat (mkWorld (mkLock (LockImpl.Held 1%nat 1) 1 false 1 0) [])
      = Returns tt w1 /\
    Release false 1%nat w1 = Returns tt w2 /\
    recursion_count_shadow_ (self w2) = 1 /\
    lock_ (self w2) = LockImpl.Held 1%nat 1 /\
    contention_count_ (self w2) = 0 /\
    (false = true -> self w2 = mkLock (LockImpl.Held 1%nat 1) 1 false 1 0) /\
    (false = false ->
     can_increment 1 ->
     acquisition_count_ (self w2) = 1 + 0 /\
     recursion_used_ (self w2) = true).
Proof.
  apply (Acquire_then_Release false 1%nat 1
           (mkWorld (mkLock (LockImpl.Held 1%nat 1) 1 false 1 0) [])).
  - unfold INT32_MAX. lia.
  - split; reflexivity.
Defined.

(** X5. Whether the instrumented destructor accepts a lock is decided by
    the balance of its use: after k [Acquire] and j <= k [Release] by one
    thread on a lock that nobody held, the destructor run by that thread
    returns when j = k and aborts when j < k; the lock object is
    untouched either way. *)
Theorem balance_decides_destruction
        (who : thread) (k j : nat) (w : World) :
  (j <= k)%nat -> Z.of_nat k <= INT32_MAX ->
  recursion_count_shadow_ (self w) = 0 -> lock_ (self w) = LockImpl.Free ->
  exists w1 w2,
    times k (Acquire false who) w = Returns tt w1 /\
    times j (Release false who) w1 = Returns tt w2 /\
    (j = k ->
     exists w3, Lock_dtor false who w2 = Returns tt w3 /\ self w3 = self w2) /\
    ((j < k)%nat ->
     exists w3, Lock_dtor false who w2 = Aborts w3 /\ self w3 = self w2).
Proof.
  intros Hjk Hk Hn Hm.
  destruct (times_Acquire false who k 0 w) as (w1 & E1 & H1 & _);
    [split; assumption|lia|lia|].
  rewrite Z.add_0_l in H1.
  destruct (times_Release false who j (Z.of_nat k) w1 H1)
    as (w2 & E2 & [N2 M2] & _); [lia|].
  exists w1, w2. repeat conj; auto.
  - intros ->. rewrite Lock_dtor_debug_free
      by (rewrite M2; apply available_mutex_at).
    cbv zeta. rewrite N2, Z.sub_diag. cbn. eauto.
  - intros Hlt. rewrite Lock_dtor_debug_free
      by (rewrite M2; apply available_mutex_at).
    cbv zeta. rewrite N2.
    destruct (Z.eqb_spec 0 (Z.of_nat k - Z.of_nat j)); [lia|].
    cbn. eauto.
Qed.

Lemma balance_decides_destruction_witness :
  exists w1 w2,
    times 2 (Acquire false 0%nat) (mkWorld Lock_ctor []) = Returns tt w1 /\
    times 1 (Release false 0%nat) w1 = Returns tt w2 /\
    (1%nat = 2%nat ->
     exists w3, Lock_dtor false 0%nat w2 = Returns tt w3 /\ self w3 = self w2) /\
    ((1 < 2)%nat ->
     exists w3, Lock_dtor false 0%nat w2 = Aborts w3 /\ self w3 = self w2).
Proof.
  apply (balance_decides_destruction 0%nat 2 1 (mkWorld Lock_ctor [])).
  - lia.
  - unfold INT32_MAX. cbn. lia.
  - reflexivity.
  - reflexivity.
Defined.

(** ** [AutoUnlock] outside the round trip *)

Lemma release_loop_counts (NDEBUG : bool) (who : thread) (fuel : nat) :
  forall (count rc : Z) (w : World),
    recursion_count_shadow_ (self w) = count ->
    is_int32 count -> 0 <= rc -> rc + Z.max 0 count <= INT32_MAX ->
    (Z.to_nat count <= fuel)%nat ->
    match release_loop NDEBUG fuel who count (mkAutoUnlock rc) w with
    | Returns au w' =>
        release_count_ au = rc + Z.max 0 count /\
        recursion_count_shadow_ (self w') = Z.min 0 count /\
        calls mRelease (log w') =
          (calls mRelease (log w) + Z.to_nat count)%nat
    | Parked _ _ => False
    | _ => True
    end.
Proof.
  induction fuel as [|fuel IH]; intros count rc w Hn Hi Hrc Hsum Hfuel.
  - assert (count <= 0) by lia.
    cbn [release_loop]. destruct (Z.gtb_spec count 0); [lia|].
    cbn. repeat conj; try lia.
  - cbn [release_loop]. destruct (Z.gtb_spec count 0) as [Hpos|Hle].
    2:{ cbn. repeat conj; try lia. }
    unfold bind at 1. rewrite Release_eq. cbv zeta.
    assert (Hw : wrap32 (count - 1) = count - 1).
    { apply wrap32_pred. unfold can_decrement, is_int32, INT32_MIN in *. lia. }
    rewrite Hn, Hw.
    destruct (negb NDEBUG && _); [exact I|].
    destruct (LockImpl.Unlock who (lock_ (self w))) as [m|]; [|exact I].
    cbn [bind_result release_count_].
    rewrite wrap32_succ
      by (unfold can_increment, INT32_MIN, INT32_MAX in *; lia).
    match goal with
    | |- match release_loop _ _ _ _ _ ?w1 with _ => _ end =>
        specialize (IH (count - 1) (rc + 1) w1)
    end.
    destruct (release_loop NDEBUG fuel who (count - 1)
                (mkAutoUnlock (rc + 1)) _) as [au w'|?|?|? ?];
      try exact I.
    + destruct IH as (H1 & H2 & H3); try lia.
      * reflexivity.
      * unfold is_int32, INT32_MIN, INT32_MAX in *. lia.
      * cbn [log] in H3. rewrite calls_app in H3. cbn in H3.
        repeat conj; lia.
    + apply IH; try lia.
      * reflexivity.
      * unfold is_int32, INT32_MIN, INT32_MAX in *. lia.
Qed.

(** X6. Whenever the constructor of [AutoUnlock] gets its depth without
    waiting (always in the production build; in the instrumented build
    when the mutex can be granted to the caller), it never waits later:
    [Release] does not block.  If it returns, [release_count_] is the depth
    it read, or 0 for a depth below 1, exactly that many [Release] calls
    were made, and the depth left is not positive.  So [release_count_] is
    never negative and the destructor's [DCHECK(release_count_ >= 0)] holds
    for every helper that was constructed. *)
Theorem AutoUnlock_ctor_release_count
        (NDEBUG : bool) (who : thread) (w : World) :
  is_int32 (recursion_count_shadow_ (self w)) ->
  NDEBUG = true \/ LockImpl.available who (lock_ (self w)) = true ->
  match AutoUnlock_ctor NDEBUG who w with
  | Returns au w1 =>
      release_count_ au = Z.max 0 (recursion_count_shadow_ (self w)) /\
      calls mRelease (log w1) =
        (calls mRelease (log w) + Z.to_nat (release_count_ au))%nat /\
      recursion_count_shadow_ (self w1) =
        Z.min 0 (recursion_count_shadow_ (self w)) /\
      (release_count_ au >=? 0) = true
  | Parked _ _ => False
  | _ => True
  end.
Proof.
  intros Hi Hcase. unfold AutoUnlock_ctor. unfold bind at 1.
  assert (Hloop : forall w0,
    self w0 = self w ->
    calls mRelease (log w0) = calls mRelease (log w) ->
    match release_loop NDEBUG (Z.to_nat (recursion_count_shadow_ (self w)))
            who (recursion_count_shadow_ (self w)) (mkAutoUnlock 0) w0 with
    | Returns au w1 =>
        release_count_ au = Z.max 0 (recursion_count_shadow_ (self w)) /\
        calls mRelease (log w1) =
          (calls mRelease (log w) + Z.to_nat (release_count_ au))%nat /\
        recursion_count_shadow_ (self w1) =
          Z.min 0 (recursion_count_shadow_ (self w)) /\
        (release_count_ au >=? 0) = true
    | Parked _ _ => False
    | _ => True
    end).
  { intros w0 Hs Hc.
    pose proof (release_loop_counts NDEBUG who
                  (Z.to_nat (recursion_count_shadow_ (self w)))
                  (recursion_count_shadow_ (self w)) 0 w0) as H.
    destruct (release_loop NDEBUG _ who _ (mkAutoUnlock 0) w0)
      as [au w1|?|?|? ?]; try exact I.
    - destruct H as (H1 & H2 & H3); try lia.
      + rewrite Hs. reflexivity.
      + assumption.
      + unfold is_int32, INT32_MIN, INT32_MAX in *. lia.
    - apply H; try lia.
      + rewrite Hs. reflexivity.
      + assumption.
      + unfold is_int32, INT32_MIN, INT32_MAX in *. lia. }
  destruct NDEBUG.
  - rewrite GetCurrentThreadRecursionCount_production. cbn [bind_result].
    unfold bind at 1, DCHECK. cbn [ret bind_result].
    apply Hloop; [reflexivity|]. cbn [log]. rewrite calls_app. cbn. lia.
  - destruct Hcase as [Hcase|Hav]; [discriminate|].
    rewrite (GetCurrentThreadRecursionCount_debug_free _ _ Hav). cbv zeta.
    destruct (Z.geb_spec (recursion_count_shadow_ (self w)) 1) as [Hge|Hlt];
      [|exact I].
    cbn [bind_result]. unfold bind at 1, DCHECK.
    replace (recursion_count_shadow_ (self w) >? 0) with true
      by (symmetry; apply Z.gtb_lt; lia).
    cbn [ret bind_result].
    apply Hloop; [reflexivity|]. cbn [log]. rewrite calls_app. cbn. lia.
Qed.

Lemma AutoUnlock_ctor_release_count_witness :
  match AutoUnlock_ctor true 5%nat
          (mkWorld (mkLock (LockImpl.Held 5%nat 2) 2 false 1 0) []) with
  | Returns au w1 =>
      release_count_ au = 2 /\
      calls mRelease (log w1) = (0 + Z.to_nat (release_count_ au))%nat /\
      recursion_count_shadow_ (self w1) = 0 /\
      (release_count_ au >=? 0) = true
  | Parked _ _ => False
  | _ => True
  end.
Proof.
  apply (AutoUnlock_ctor_release_count true 5%nat
           (mkWorld (mkLock (LockImpl.Held 5%nat 2) 2 false 1 0) [])).
  - unfold is_int32, INT32_MIN, INT32_MAX. cbn. lia.
  - left. reflexivity.
Defined.



Lemma Acquire_held_quiet (NDEBUG : bool) (who : thread) (d : Z) (w w' : World) :
  held_at who d (self w) ->
  Acquire NDEBUG who w = Returns tt w' ->
  contention_count_ (self w') = contention_count_ (self w).
Proof.
  intros [_ Hm].
  assert (Hav : LockImpl.available who (lock_ (self w)) = true)
    by (rewrite Hm; apply available_mutex_at).
  destruct NDEBUG.
  - rewrite (Acquire_production_free _ _ Hav). intros [= <-]. reflexivity.
  - rewrite (Acquire_debug_free _ _ Hav). intros [= <-]. reflexivity.
Qed.

Lemma acquire_loop_quiet (NDEBUG : bool) (who : thread) (fuel : nat) :
  forall (rc d : Z) (w : World) (au : AutoUnlock) (w' : World),
    held_at who d (self w) ->
    0 <= d -> 0 <= rc -> d + rc <= INT32_MAX ->
    acquire_loop NDEBUG fuel who (mkAutoUnlock rc) w = Returns au w' ->
    contention_count_ (self w') = contention_count_ (self w).
Proof.
  induction fuel as [|fuel IH]; intros rc d w au w' Hheld Hd Hrc Hsum.
  - cbn [acquire_loop]. destruct (_ >? _); intros [= _ <-]; reflexivity.
  - cbn [acquire_loop release_count_].
    destruct (Z.gtb_spec rc 0) as [Hpos|Hzero]; [|intros [= _ <-]; reflexivity].
    destruct (Acquire_held NDEBUG who d w Hheld) as (w1 & E1 & H1 & _); [lia|].
    unfold bind at 1. rewrite E1. cbn [bind_result].
    rewrite wrap32_pred by (unfold can_decrement, INT32_MIN; lia).
    intros E. rewrite (IH (rc - 1) (d + 1) w1 au w' H1) by (lia || exact E).
    apply (Acquire_held_quiet NDEBUG who d w w1 Hheld E1).
Qed.

(** X8. The destructor of [AutoUnlock] while another thread is inside the
    lock.  With [release_count_] = d >= 1 and a mutex that cannot be
    granted, the destructor parks in its first [Acquire] and changes
    nothing.  It stays parked as long as the mutex is taken; woken on a
    lock that nobody holds, it completes all d acquisitions and the caller
    holds the lock at depth d.  The instrumented build counts this as one
    contention, however large d is. *)
Theorem AutoUnlock_dtor_waits
        (NDEBUG : bool) (who : thread) (d : Z) (w : World) :
  1 <= d <= INT32_MAX ->
  LockImpl.available who (lock_ (self w)) = false ->
  exists w' k,
    AutoUnlock_dtor NDEBUG who (mkAutoUnlock d) w = Parked w' k /\
    self w' = self w /\
    calls mAcquire (log w') = (calls mAcquire (log w) + 1)%nat /\
    forall w2,
      (LockImpl.available who (lock_ (self w2)) = false -> k w2 = None) /\
      (held_at who 0 (self w2) ->
       exists au' w3,
         k w2 = Some (Returns au' w3) /\
         held_at who d (self w3) /\
         calls mAcquire (log w3) =
           (calls mAcquire (log w2) + Z.to_nat (d - 1))%nat /\
         (NDEBUG = false ->
          can_increment (contention_count_ (self w2)) ->
          contention_count_ (self w3) = contention_count_ (self w2) + 1)).
Proof.
  intros Hd Hav. unfold AutoUnlock_dtor. cbn [release_count_].
  unfold bind at 1, DCHECK.
  replace (d >=? 0) with true by (symmetry; apply Z.geb_le; lia).
  assert (Hfuel : Z.to_nat d = S (Z.to_nat (d - 1))) by lia.
  assert (Hgt : (d >? 0) = true) by (apply Z.gtb_lt; lia).
  assert (Hw : wrap32 (d - 1) = d - 1)
    by (apply wrap32_pred; unfold can_decrement, INT32_MIN; lia).
  destruct NDEBUG; cbn [ret bind_result]; rewrite Hfuel;
    cbn [acquire_loop release_count_]; rewrite Hgt, Hw; unfold bind at 1.
  - destruct (Acquire_production_busy who w Hav) as (k0 & -> & Hk0).
    cbn [bind_result]. eexists _, _. split; [reflexivity|].
    cbn [self log]. split; [reflexivity|].
    split; [rewrite calls_app; reflexivity|].
    intros w2. cbv beta. rewrite Hk0. unfold Acquire_resume_production.
    split.
    + intros ->. reflexivity.
    + intros [Hn2 Hm2].
      assert (Hav2 : LockImpl.available who (lock_ (self w2)) = true)
        by (rewrite Hm2; reflexivity).
      rewrite Hav2. cbn [bind_result].
      match goal with
      | |- exists _ _, Some (acquire_loop _ _ _ _ ?w3) = _ /\ _ =>
          destruct (acquire_loop_held true who (Z.to_nat (d - 1)) (d - 1) 1 w3)
            as (w4 & E4 & H4 & CA & _)
      end; try lia.
      { unfold held_at, entered_production. cbn [self lock_ recursion_count_shadow_].
        rewrite Hn2, Hm2. split; reflexivity. }
      exists (mkAutoUnlock (-1)), w4. rewrite E4.
      replace (1 + (d - 1)) with d in H4 by lia.
      repeat conj; auto. discriminate.
  - destruct (Acquire_debug_busy who w Hav) as (k0 & -> & Hk0).
    cbn [bind_result]. eexists _, _. split; [reflexivity|].
    cbn [self log]. split; [reflexivity|].
    split; [rewrite calls_app; reflexivity|].
    intros w2. cbv beta. rewrite Hk0. unfold Acquire_resume.
    split.
    + intros ->. reflexivity.
    + intros [Hn2 Hm2].
      assert (Hav2 : LockImpl.available who (lock_ (self w2)) = true)
        by (rewrite Hm2; reflexivity).
      rewrite Hav2. cbn [bind_result].
      assert (Hheld : held_at who 1
                (entered true (LockImpl.grant who (lock_ (self w2))) (self w2))).
      { unfold held_at, entered. cbn [lock_ recursion_count_shadow_].
        rewrite Hn2, Hm2. split; reflexivity. }
      match goal with
      | |- exists _ _, Some (acquire_loop _ _ _ _ ?w3) = _ /\ _ =>
          destruct (acquire_loop_held false who (Z.to_nat (d - 1)) (d - 1) 1 w3)
            as (w4 & E4 & H4 & CA & _);
          [exact Hheld|lia|lia|lia|lia|];
          pose proof (acquire_loop_quiet false who (Z.to_nat (d - 1)) (d - 1) 1
                        w3 _ _ Hheld ltac:(lia) ltac:(lia) ltac:(lia) E4) as Hq
      end.
      exists (mkAutoUnlock (-1)), w4. rewrite E4.
      replace (1 + (d - 1)) with d in H4 by lia.
      repeat conj; auto.
      intros _ Hc. rewrite Hq. cbn [self].
      apply entered_contention, Hc.
Qed.

Lemma AutoUnlock_dtor_waits_witness :
  exists w' k,
    AutoUnlock_dtor false 1%nat (mkAutoUnlock 2)
      (mkWorld (mkLock (LockImpl.Held 2%nat 1) 1 false 1 0) []) = Parked w' k /\
    self w' = mkLock (LockImpl.Held 2%nat 1) 1 false 1 0 /\
    calls mAcquire (log w') = 1%nat /\
    forall w2,
      (LockImpl.available 1%nat (lock_ (self w2)) = false -> k w2 = None) /\
      (held_at 1%nat 0 (self w2) ->
       exists au' w3,
         k w2 = Some (Returns au' w3) /\
         held_at 1%nat 2 (self w3) /\
         calls mAcquire (log w3) =
           (calls mAcquire (log w2) + Z.to_nat (2 - 1))%nat /\
         (false = false ->
          can_increment (contention_count_ (self w2)) ->
          contention_count_ (self w3) = contention_count_ (self w2) + 1)).
Proof.
  apply (AutoUnlock_dtor_waits false 1%nat 2
           (mkWorld (mkLock (LockImpl.Held 2%nat 1) 1 false 1 0) [])).
  - unfold INT32_MAX. lia.
  - reflexivity.
Defined.

(** ** Contention between threads *)

Lemma invoke_keeps_contention (o : op) (who : thread) (w : World) :
  match invoke false o who w with
  | Returns _ w' => contention_count_ (self w') = contention_count_ (self w)
  | Parked w' _ => contention_count_ (self w') = contention_count_ (self w)
  | _ => True
  end.
Proof.
  destruct o; cbn [invoke].
  - destruct (LockImpl.available who (lock_ (self w))) eqn:Hav.
    + rewrite (Acquire_debug_free _ _ Hav). reflexivity.
    + destruct (Acquire_debug_busy _ _ Hav) as (k & -> & _). reflexivity.
  - rewrite Release_eq. cbv zeta.
    destruct (negb false && _); [exact I|].
    destruct (LockImpl.Unlock who (lock_ (self w))); [|exact I].
    reflexivity.
  - unfold bind. rewrite Try_eq.
    destruct (LockImpl.available who (lock_ (self w))); reflexivity.
  - unfold bind.
    destruct (LockImpl.available who (lock_ (self w))) eqn:Hav.
    + rewrite (GetCurrentThreadRecursionCount_debug_free _ _ Hav). cbv zeta.
      destruct (recursion_count_shadow_ (self w) >=? 1); cbn; auto.
    + destruct (GetCurrentThreadRecursionCount_debug_busy _ _ Hav)
        as (k & -> & _). reflexivity.
Qed.

Lemma lock_step_contention (l l' : Lock) :
  lock_step l l' ->
  int32_counters l -> contention_count_ l < INT32_MAX ->
  contention_count_ l' = contention_count_ l \/
  contention_count_ l' = contention_count_ l + 1.
Proof.
  intros [m|c m|m H] (_ & _ & [Hc _]) Hmax; lock_fields; auto.
  destruct c; auto. right. apply wrap32_succ. split; assumption.
Qed.

(** X9. Instrumented build, any step of any run from the constructed lock:
    a method that is invoked never changes [contention_count_], whether it
    returns or parks; the counter moves only on a step that wakes a parked
    thread, and then by exactly 1 (below [INT32_MAX]). *)
Theorem contention_counted_on_wake
        (acts : list action) (a : action) (s s' : System) :
  exec false acts boot = Some s ->
  step false a s = Some s' ->
  contention_count_ (self (shared s)) < INT32_MAX ->
  (forall who o,
     a = Invoke who o ->
     contention_count_ (self (shared s')) = contention_count_ (self (shared s)))
  /\
  (contention_count_ (self (shared s')) = contention_count_ (self (shared s)) \/
   contention_count_ (self (shared s')) =
     contention_count_ (self (shared s)) + 1).
Proof.
  intros Hexec Hstep Hmax.
  pose proof (exec_preserves_sound acts _ _ boot_sound Hexec) as Hs.
  destruct (step_preserves_sound a s s' Hs Hstep) as [_ Hls].
  destruct Hs as (_ & _ & Hi).
  split; [|apply (lock_step_contention _ _ Hls Hi Hmax)].
  intros who o ->. cbn [step] in Hstep.
  destruct (parked_at who (waiting s)); [discriminate|].
  pose proof (invoke_keeps_contention o who (shared s)) as Hk.
  destruct (invoke false o who (shared s)) as [[] w'|w'|w'|w1 k];
    cbn [settle] in Hstep; try discriminate;
    injection Hstep as <-; exact Hk.
Qed.

Lemma contention_counted_on_wake_witness :
  (forall who o,
     Invoke 3%nat OpAcquire = Invoke who o ->
     contention_count_ (mkLock (LockImpl.Held 3%nat 1) 1 false 1 0) = 0)
  /\
  (contention_count_ (mkLock (LockImpl.Held 3%nat 1) 1 false 1 0) = 0 \/
   contention_count_ (mkLock (LockImpl.Held 3%nat 1) 1 false 1 0) = 0 + 1).
Proof.
  apply (contention_counted_on_wake [] (Invoke 3%nat OpAcquire) boot
           (mkSystem
              (mkWorld (mkLock (LockImpl.Held 3%nat 1) 1 false 1 0)
                       [Called mAcquire 3%nat; OnMutex (pTry true) 3%nat])
              [])).
  - reflexivity.
  - reflexivity.
  - unfold INT32_MAX. cbn. lia.
Defined.

Lemma releases_by_holder (NDEBUG : bool) (a : thread) (j : nat) :
  forall (d : Z) (w : World) (ws : list (thread * continuation)),
    held_at a d (self w) -> Z.of_nat j <= d <= INT32_MAX ->
    parked_at a ws = None ->
    exists w',
      exec NDEBUG (repeat (Invoke a OpRelease) j) (mkSystem w ws)
        = Some (mkSystem w' ws) /\
      held_at a (d - Z.of_nat j) (self w') /\
      contention_count_ (self w') = contention_count_ (self w).
Proof.
  induction j as [|j IH]; intros d w ws Hheld Hd Hfree.
  - exists w. cbn [repeat exec]. rewrite Z.sub_0_r. auto.
  - destruct (Release_held NDEBUG a d w Hheld)
      as (w1 & E1 & H1 & _ & _ & _ & C1); [lia|].
    destruct (IH (d - 1) w1 ws H1) as (w' & E' & H' & C'); [lia|assumption|].
    exists w'. cbn [repeat exec step shared waiting invoke].
    rewrite Hfree, E1. cbn [settle]. rewrite E'.
    replace (d - Z.of_nat (S j)) with (d - 1 - Z.of_nat j) by lia.
    repeat conj; auto. congruence.
Qed.

(** X10. Handing the lock over, instrumented build.  While thread [a]
    holds the lock at depth d, an [Acquire] by another thread [b] parks
    and leaves the lock object alone; [b] cannot be woken before [a] has
    released all d levels; after the d-th [Release] it can, and then [b]
    holds the lock at depth 1 and one contention has been counted. *)
Theorem handover (a b : thread) (d : Z) (w : World) :
  a <> b -> 1 <= d <= INT32_MAX ->
  held_at a d (self w) ->
  can_increment (contention_count_ (self w)) ->
  exists s1,
    step false (Invoke b OpAcquire) (mkSystem w []) = Some s1 /\
    self (shared s1) = self w /\
    (exists k, waiting s1 = [(b, k)]) /\
    (forall j, (j < Z.to_nat d)%nat ->
       exists s2,
         exec false (repeat (Invoke a OpRelease) j) s1 = Some s2 /\
         step false (Wake b) s2 = None) /\
    exists s2 s3,
      exec false (repeat (Invoke a OpRelease) (Z.to_nat d)) s1 = Some s2 /\
      step false (Wake b) s2 = Some s3 /\
      held_at b 1 (self (shared s3)) /\
      waiting s3 = [] /\
      contention_count_ (self (shared s3)) = contention_count_ (self w) + 1.
Proof.
  intros Hab Hd Hheld Hroom.
  assert (Hba : Nat.eqb b a = false) by (apply Nat.eqb_neq; congruence).
  assert (Hbusy : forall e w0, 1 <= e -> held_at a e (self w0) ->
                    LockImpl.available b (lock_ (self w0)) = false).
  { intros e w0 He [_ Hm]. rewrite Hm. destruct e; try lia.
    cbn. apply Nat.eqb_neq. assumption. }
  destruct (Acquire_debug_busy b w (Hbusy d w (proj1 Hd) Hheld))
    as (k & E & Hk).
  remember (mkWorld (self w)
              (log w ++ [Called mAcquire b; OnMutex (pTry false) b;
                         OnMutex pLock b])) as w1 eqn:Ew1.
  assert (Hheld1 : held_at a d (self w1)) by (subst w1; exact Hheld).
  assert (Hc1 : contention_count_ (self w1) = contention_count_ (self w))
    by (subst w1; reflexivity).
  assert (Hs1 : self w1 = self w) by (subst w1; reflexivity).
  clear Ew1.
  eexists. cbn [step waiting parked_at shared invoke]. rewrite E.
  cbn [settle]. split; [reflexivity|]. cbn [shared waiting].
  split; [exact Hs1|].
  split; [eauto|].
  assert (Hfree : parked_at a [(b, k)] = None)
    by (cbn [parked_at]; rewrite Hba; reflexivity).
  split.
  - intros j Hj.
    destruct (releases_by_holder false a j d w1 [(b, k)] Hheld1)
      as (w' & E' & H' & _); [lia|assumption|].
    eexists. split; [exact E'|].
    cbn [step waiting parked_at shared]. rewrite Nat.eqb_refl, Hk.
    unfold Acquire_resume.
    rewrite (Hbusy (d - Z.of_nat j) w'); [reflexivity|lia|assumption].
  - destruct (releases_by_holder false a (Z.to_nat d) d w1 [(b, k)] Hheld1)
      as (w' & E' & [Hn' Hm'] & C'); [lia|assumption|].
    replace (d - Z.of_nat (Z.to_nat d)) with 0 in Hn', Hm' by lia.
    eexists _, _. split; [exact E'|].
    cbn [step waiting parked_at shared unpark]. rewrite Nat.eqb_refl, Hk.
    unfold Acquire_resume. rewrite Hm'. cbn [LockImpl.available settle].
    split; [reflexivity|]. cbn [shared waiting self].
    split.
    { unfold held_at, entered. cbn [recursion_count_shadow_ lock_].
      rewrite Hn'. split; reflexivity. }
    split; [reflexivity|].
    rewrite Hc1 in C'. rewrite <- C' in Hroom |- *.
    apply entered_contention, Hroom.
Qed.

Lemma handover_witness :
  exists s1,
    step false (Invoke 1%nat OpAcquire)
      (mkSystem (mkWorld (mkLock (LockImpl.Held 0%nat 2) 2 true 1 0) []) [])
      = Some s1 /\
    self (shared s1) = mkLock (LockImpl.Held 0%nat 2) 2 true 1 0 /\
    (exists k, waiting s1 = [(1%nat, k)]) /\
    (forall j, (j < Z.to_nat 2)%nat ->
       exists s2,
         exec false (repeat (Invoke 0%nat OpRelease) j) s1 = Some s2 /\
         step false (Wake 1%nat) s2 = None) /\
    exists s2 s3,
      exec false (repeat (Invoke 0%nat OpRelease) (Z.to_nat 2)) s1 = Some s2 /\
      step false (Wake 1%nat) s2 = Some s3 /\
      held_at 1%nat 1 (self (shared s3)) /\
      waiting s3 = [] /\
      contention_count_ (self (shared s3)) = 0 + 1.
Proof.
  apply (handover 0%nat 1%nat 2
           (mkWorld (mkLock (LockImpl.Held 0%nat 2) 2 true 1 0) [])).
  - discriminate.
  - unfold INT32_MAX. lia.
  - split; reflexivity.
  - unfold can_increment, INT32_MIN, INT32_MAX. cbn. lia.
Defined.

(** ** The shadow count and the mutex *)

Section InvariantOfRuns.

Variable NDEBUG : bool.
Variable P : Lock -> Prop.
Hypothesis invoke_keeps :
  forall o who w, P (self w) -> outcome_keeps P w (invoke NDEBUG o who w).

Lemma kept_step (a : action) (s s' : System) :
  kept P s -> step NDEBUG a s = Some s' -> kept P s'.
Proof.
  intros [Hp Hws]. destruct a as [who o|who]; cbn [step].
  - destruct (parked_at who (waiting s)); [discriminate|].
    pose proof (invoke_keeps o who (shared s) Hp) as Hr.
    destruct (invoke NDEBUG o who (shared s)) as [[] w'|w'|w'|w1 k];
      cbn [settle]; try discriminate; intros [= <-];
      unfold kept; cbn [shared waiting]; cbn [outcome_keeps] in Hr.
    + split; assumption.
    + destruct Hr as [E Hk]. split; [rewrite E; assumption|].
      constructor; assumption.
  - destruct (parked_at who (waiting s)) as [k|] eqn:Hk; [|discriminate].
    destruct (parked_at_In _ _ _ Hk) as [t Hin].
    assert (Hres : resume_keeps P k).
    { rewrite Forall_forall in Hws. apply (Hws (t, k) Hin). }
    specialize (Hres (shared s) Hp).
    destruct (k (shared s)) as [[[] w'|w'|w'|w1 k']|];
      cbn [settle]; try discriminate; try contradiction.
    intros [= <-]. unfold kept. cbn [shared waiting]. split; [exact Hres|].
    rewrite Forall_forall in *. intros x Hx.
    apply Hws, (unpark_incl who (waiting s)), Hx.
Qed.

Lemma kept_exec (acts : list action) :
  forall s s', kept P s -> exec NDEBUG acts s = Some s' -> kept P s'.
Proof.
  induction acts as [|a acts IH]; intros s s' Hs; cbn [exec].
  - intros [= <-]. assumption.
  - destruct (step NDEBUG a s) as [s1|] eqn:E; [|discriminate].
    apply IH. apply (kept_step a s s1 Hs E).
Qed.

End InvariantOfRuns.

Lemma wrap32_wrap32_add (x y : Z) : wrap32 (wrap32 x + y) = wrap32 (x + y).
Proof.
  unfold wrap32.
  replace ((x + 2147483648) mod 4294967296 - 2147483648 + y + 2147483648)
    with ((x + 2147483648) mod 4294967296 + y) by lia.
  rewrite Z.add_mod_idemp_l by discriminate.
  replace (x + 2147483648 + y) with (x + y + 2147483648) by lia.
  reflexivity.
Qed.

Lemma mutex_depth_grant (who : thread) (m : LockImpl.t) :
  mutex_depth (LockImpl.grant who m) = mutex_depth m + 1.
Proof. destruct m; cbn; lia. Qed.

Lemma mutex_depth_Unlock (who : thread) (m m' : LockImpl.t) :
  LockImpl.Unlock who m = Some m' -> mutex_depth m' = mutex_depth m - 1.
Proof.
  destruct m as [|o p]; cbn [LockImpl.Unlock]; [discriminate|].
  destruct (Nat.eqb o who); [|discriminate].
  intros [= <-]. destruct p; cbn; lia.
Qed.

Lemma depth_agrees_entered (c : bool) (who : thread) (l : Lock) :
  depth_agrees l -> depth_agrees (entered c (LockImpl.grant who (lock_ l)) l).
Proof.
  unfold depth_agrees, entered. cbn [recursion_count_shadow_ lock_].
  intros ->. rewrite mutex_depth_grant. apply wrap32_wrap32_add.
Qed.

Lemma depth_agrees_entered_production (who : thread) (l : Lock) :
  depth_agrees l ->
  depth_agrees (entered_production (LockImpl.grant who (lock_ l)) l).
Proof.
  unfold depth_agrees, entered_production. cbn [recursion_count_shadow_ lock_].
  intros ->. rewrite mutex_depth_grant. apply wrap32_wrap32_add.
Qed.

Lemma invoke_keeps_depth (NDEBUG : bool) (o : op) (who : thread) (w : World) :
  depth_agrees (self w) ->
  outcome_keeps depth_agrees w (invoke NDEBUG o who w).
Proof.
  intros Hp. destruct o; cbn [invoke].
  - destruct (LockImpl.available who (lock_ (self w))) eqn:Hav; destruct NDEBUG.
    + rewrite (Acquire_production_free _ _ Hav). cbn.
      apply depth_agrees_entered_production, Hp.
    + rewrite (Acquire_debug_free _ _ Hav). cbn.
      apply depth_agrees_entered, Hp.
    + destruct (Acquire_production_busy _ _ Hav) as (k & -> & Hk). cbn.
      split; [reflexivity|]. intros w2 Hp2. rewrite Hk.
      unfold Acquire_resume_production.
      destruct (LockImpl.available who (lock_ (self w2))); [|exact I].
      cbn. apply depth_agrees_entered_production, Hp2.
    + destruct (Acquire_debug_busy _ _ Hav) as (k & -> & Hk). cbn.
      split; [reflexivity|]. intros w2 Hp2. rewrite Hk.
      unfold Acquire_resume.
      destruct (LockImpl.available who (lock_ (self w2))); [|exact I].
      cbn. apply depth_agrees_entered, Hp2.
  - rewrite Release_eq. cbv zeta.
    destruct (negb NDEBUG && _); [exact I|].
    destruct (LockImpl.Unlock who (lock_ (self w))) as [m|] eqn:Hu; [|exact I].
    cbn. unfold depth_agrees in *. lock_fields.
    rewrite (mutex_depth_Unlock _ _ _ Hu), Hp.
    replace (wrap32 (mutex_depth (lock_ (self w))) - 1)
      with (wrap32 (mutex_depth (lock_ (self w))) + -1) by lia.
    rewrite wrap32_wrap32_add. f_equal; lia.
  - unfold bind. rewrite Try_eq.
    destruct (LockImpl.available who (lock_ (self w))); cbn; [|exact Hp].
    destruct NDEBUG.
    + apply depth_agrees_entered_production, Hp.
    + apply depth_agrees_entered, Hp.
  - unfold bind. destruct NDEBUG.
    + rewrite GetCurrentThreadRecursionCount_production. cbn. exact Hp.
    + destruct (LockImpl.available who (lock_ (self w))) eqn:Hav.
      * rewrite (GetCurrentThreadRecursionCount_debug_free _ _ Hav). cbv zeta.
        destruct (recursion_count_shadow_ (self w) >=? 1); cbn; auto.
      * destruct (GetCurrentThreadRecursionCount_debug_busy _ _ Hav)
          as (k & -> & Hk). cbn.
        split; [reflexivity|]. intros w2 Hp2. rewrite Hk.
        unfold GetCurrentThreadRecursionCount_resume.
        destruct (LockImpl.available who (lock_ (self w2))); [|exact I].
        cbv zeta.
        destruct (recursion_count_shadow_ (self w2) >=? 1); cbn; auto.
Qed.

(** X11. In both builds and at every point of every run from the
    constructed lock, [recursion_count_shadow_] is the number of
    outstanding acquisitions of the mutex, as an [int32]: no method lets
    the two drift apart.  As long as that number fits an [int32] the two
    are equal, so the depth is 0 exactly when nobody holds the lock. *)
Theorem depth_shadows_mutex (NDEBUG : bool) (acts : list action) (s : System) :
  exec NDEBUG acts boot = Some s ->
  recursion_count_shadow_ (self (shared s))
    = wrap32 (mutex_depth (lock_ (self (shared s)))) /\
  (mutex_depth (lock_ (self (shared s))) <= INT32_MAX ->
   recursion_count_shadow_ (self (shared s))
     = mutex_depth (lock_ (self (shared s))) /\
   (recursion_count_shadow_ (self (shared s)) = 0 <->
    lock_ (self (shared s)) = LockImpl.Free)).
Proof.
  intros Hexec.
  assert (Hk : kept depth_agrees s).
  { apply (kept_exec NDEBUG depth_agrees (invoke_keeps_depth NDEBUG)
             acts boot s); [|assumption].
    split; [reflexivity|constructor]. }
  destruct Hk as [Hp _]. split; [exact Hp|].
  intros Hmax.
  assert (E : recursion_count_shadow_ (self (shared s))
              = mutex_depth (lock_ (self (shared s)))).
  { rewrite Hp. apply wrap32_id.
    unfold is_int32, INT32_MIN. destruct (lock_ (self (shared s))); cbn in *; lia. }
  split; [exact E|]. rewrite E.
  destruct (lock_ (self (shared s))); cbn; split; intros; try lia;
    try reflexivity; discriminate.
Qed.

Lemma depth_shadows_mutex_witness :
  recursion_count_shadow_ (mkLock (LockImpl.Held 0%nat 2) 2 true 1 0)
    = wrap32 (mutex_depth (LockImpl.Held 0%nat 2)) /\
  (mutex_depth (LockImpl.Held 0%nat 2) <= INT32_MAX ->
   recursion_count_shadow_ (mkLock (LockImpl.Held 0%nat 2) 2 true 1 0)
     = mutex_depth (LockImpl.Held 0%nat 2) /\
   (recursion_count_shadow_ (mkLock (LockImpl.Held 0%nat 2) 2 true 1 0) = 0 <->
    LockImpl.Held 0%nat 2 = LockImpl.Free)).
Proof.
  apply (depth_shadows_mutex false
           [Invoke 0%nat OpAcquire; Invoke 0%nat OpTry]
           (mkSystem
              (mkWorld (mkLock (LockImpl.Held 0%nat 2) 2 true 1 0)
                       [Called mAcquire 0%nat; OnMutex (pTry true) 0%nat;
                        Called mTry 0%nat; OnMutex (pTry true) 0%nat])
              [])).
  reflexivity.
Defined.

(** ** The recursion count asked for while another thread holds the lock *)

(** X12. [GetCurrentThreadRecursionCount] called while another thread is
    inside the lock.  The production build returns the depth of that other
    thread, without a call on the mutex and without a check.  The
    instrumented build parks in its [lock_.Lock()], changing nothing; it
    stays parked while the mutex is taken, and once the mutex can be
    granted it aborts when the depth it then reads is below 1 and returns
    that depth otherwise, the lock object untouched. *)
Theorem GetCurrentThreadRecursionCount_by_non_holder (who : thread) (w : World) :
  LockImpl.available who (lock_ (self w)) = false ->
  GetCurrentThreadRecursionCount true who w =
    Returns (recursion_count_shadow_ (self w))
            (mkWorld (self w)
                     (log w ++ [Called mGetCurrentThreadRecursionCount who]))
  /\
  exists w1 k,
    GetCurrentThreadRecursionCount false who w = Parked w1 k /\
    self w1 = self w /\
    forall w2,
      match k w2 with
      | None => LockImpl.available who (lock_ (self w2)) = false
      | Some (Returns d w') =>
          LockImpl.available who (lock_ (self w2)) = true /\
          d = recursion_count_shadow_ (self w2) /\ 1 <= d /\
          self w' = self w2
      | Some (Aborts w') =>
          LockImpl.available who (lock_ (self w2)) = true /\
          recursion_count_shadow_ (self w2) < 1 /\
          self w' = self w2
      | Some _ => False
      end.
Proof.
  intros Hav. split; [apply GetCurrentThreadRecursionCount_production|].
  destruct (GetCurrentThreadRecursionCount_debug_busy _ _ Hav) as (k & -> & Hk).
  eexists _, k. split; [reflexivity|]. split; [reflexivity|].
  intros w2. rewrite Hk. unfold GetCurrentThreadRecursionCount_resume.
  destruct (LockImpl.available who (lock_ (self w2))); [|reflexivity].
  cbv zeta.
  destruct (Z.geb_spec (recursion_count_shadow_ (self w2)) 1);
    cbn [self]; repeat conj; auto; lia.
Qed.

Lemma GetCurrentThreadRecursionCount_by_non_holder_witness :
  GetCurrentThreadRecursionCount true 1%nat
    (mkWorld (mkLock (LockImpl.Held 0%nat 3) 3 true 1 0) []) =
    Returns 3 (mkWorld (mkLock (LockImpl.Held 0%nat 3) 3 true 1 0)
                       [Called mGetCurrentThreadRecursionCount 1%nat])
  /\
  exists w1 k,
    GetCurrentThreadRecursionCount false 1%nat
      (mkWorld (mkLock (LockImpl.Held 0%nat 3) 3 true 1 0) []) = Parked w1 k /\
    self w1 = mkLock (LockImpl.Held 0%nat 3) 3 true 1 0 /\
    forall w2,
      match k w2 with
      | None => LockImpl.available 1%nat (lock_ (self w2)) = false
      | Some (Returns d w') =>
          LockImpl.available 1%nat (lock_ (self w2)) = true /\
          d = recursion_count_shadow_ (self w2) /\ 1 <= d /\
          self w' = self w2
      | Some (Aborts w') =>
          LockImpl.available 1%nat (lock_ (self w2)) = true /\
          recursion_count_shadow_ (self w2) < 1 /\
          self w' = self w2
      | Some _ => False
      end.
Proof.
  apply (GetCurrentThreadRecursionCount_by_non_holder 1%nat
           (mkWorld (mkLock (LockImpl.Held 0%nat 3) 3 true 1 0) [])).
  reflexivity.
Defined.

(** ** The session counter over a whole run *)

Lemma sessions_length (NDEBUG : bool) (acts : list action) :
  forall s, (sessions NDEBUG acts s <= length acts)%nat.
Proof.
  induction acts as [|a acts IH]; intros s; cbn [sessions length]; [lia|].
  destruct (step NDEBUG a s) as [s'|]; [|lia].
  specialize (IH s'). cbv zeta. destruct (_ && _); lia.
Qed.

Lemma sessions_counted (acts : list action) :
  forall s0 s,
    sound s0 -> exec false acts s0 = Some s ->
    acquisition_count_ (self (shared s0)) + Z.of_nat (length acts) <= INT32_MAX ->
    acquisition_count_ (self (shared s)) =
      acquisition_count_ (self (shared s0)) + Z.of_nat (sessions false acts s0).
Proof.
  induction acts as [|a acts IH]; intros s0 s Hs0; cbn [exec sessions length].
  - intros [= <-] _. lia.
  - destruct (step false a s0) as [s1|] eqn:Estep; [|discriminate].
    intros Hexec Hmax.
    destruct (step_preserves_sound a s0 s1 Hs0 Estep) as [Hs1 Hls].
    destruct Hs0 as (_ & _ & Hi).
    destruct (lock_step_session _ _ Hls Hi) as [Hiff Hor]; [lia|].
    cbv zeta. rewrite (IH s1 s Hs1 Hexec).
    + destruct (Z.eqb_spec (recursion_count_shadow_ (self (shared s0))) 0);
        destruct (Z.eqb_spec (recursion_count_shadow_ (self (shared s1))) 1);
        cbn [andb]; destruct Hor; try lia; tauto.
    + destruct Hor; lia.
Qed.

(** X13. Instrumented build: at the end of every run from the constructed
    lock (of fewer than 2^31 steps), [acquisition_count_] is the number of
    steps of the run that took the depth from 0 to 1. *)
Theorem acquisition_count_is_sessions (acts : list action) (s : System) :
  exec false acts boot = Some s ->
  Z.of_nat (length acts) <= INT32_MAX ->
  acquisition_count_ (self (shared s)) = Z.of_nat (sessions false acts boot).
Proof.
  intros Hexec Hlen.
  rewrite (sessions_counted acts boot s boot_sound Hexec); [reflexivity|].
  cbn. lia.
Qed.

Lemma acquisition_count_is_sessions_witness :
  acquisition_count_ (mkLock (LockImpl.Held 0%nat 1) 1 true 2 0) =
  Z.of_nat
    (sessions false
       [Invoke 0%nat OpAcquire; Invoke 0%nat OpAcquire; Invoke 0%nat OpRelease;
        Invoke 0%nat OpRelease; Invoke 0%nat OpTry] boot).
Proof.
  apply (acquisition_count_is_sessions
           [Invoke 0%nat OpAcquire; Invoke 0%nat OpAcquire; Invoke 0%nat OpRelease;
            Invoke 0%nat OpRelease; Invoke 0%nat OpTry]
           (mkSystem
              (mkWorld (mkLock (LockImpl.Held 0%nat 1) 1 true 2 0)
                       [Called mAcquire 0%nat; OnMutex (pTry true) 0%nat;
                        Called mAcquire 0%nat; OnMutex (pTry true) 0%nat;
                        Called mRelease 0%nat; OnMutex pUnlock 0%nat;
                        Called mRelease 0%nat; OnMutex pUnlock 0%nat;
                        Called mTry 0%nat; OnMutex (pTry true) 0%nat])
              [])).
  - reflexivity.
  - unfold INT32_MAX. cbn. lia.
Defined.
